(** * pyhelpers.ops.comp: computation and conversion helpers

    A shallow embedding of [src/pyhelpers/ops/comp.py] and the properties of
    its functions.  Python [int] is [Z]; Python [float] is IEEE 754 binary64,
    taken from the Standard Library's executable specification
    ([spec_float] with [prec = 53], [emax = 1024]); Python [str] is [string]
    (a sequence of 8-bit code points); raised exceptions are the [Raise]
    results of a small error monad. *)

From Stdlib Require Import ZArith QArith Qpower List String Ascii Bool.
From Stdlib Require Import Lia Lqa Sorted Permutation.
From Stdlib Require Import SpecFloat DecimalString.
Import ListNotations.

Local Open Scope string_scope.
Local Open Scope Z_scope.

(** ** Exceptions and results *)

Inductive exn : Type :=
  | ValueError
  | IndexError
  | OverflowError
  | ZeroDivisionError.

(** [IndexError] (and [KeyError]) are the subclasses of [LookupError]. *)
Definition is_lookup_error (e : exn) : bool :=
  match e with IndexError => true | _ => false end.

Inductive result (A : Type) : Type :=
  | Ok (a : A)
  | Raise (e : exn).
Arguments Ok {A} a.
Arguments Raise {A} e.

Definition bind {A B : Type} (r : result A) (k : A -> result B) : result B :=
  match r with
  | Ok a => k a
  | Raise e => Raise e
  end.

Notation "x <- r ;; k" := (bind r (fun x => k))
  (at level 61, r at next level, right associativity).

Definition of_option {A : Type} (e : exn) (o : option A) : result A :=
  match o with Some a => Ok a | None => Raise e end.

(** ** binary64 *)

Module F64.

Definition prec : Z := 53.
Definition emax : Z := 1024.

Definition float : Type := spec_float.

Definition zero : float := S754_zero false.
Definition inf : float := S754_infinity false.
Definition nan : float := S754_nan.

Definition add : float -> float -> float := SFadd prec emax.
Definition sub : float -> float -> float := SFsub prec emax.
Definition mul : float -> float -> float := SFmul prec emax.
Definition div : float -> float -> float := SFdiv prec emax.
Definition abs : float -> float := SFabs.
Definition ltb : float -> float -> bool := SFltb.
Definition leb : float -> float -> bool := SFleb.
Definition eqb : float -> float -> bool := SFeqb.

Definition is_nan (x : float) : bool :=
  match x with S754_nan => true | _ => false end.

Definition is_finite (x : float) : bool :=
  match x with S754_zero _ | S754_finite _ _ _ => true | _ => false end.

(** The value nearest to an integer (ties to even); [inf] beyond the range. *)
Definition of_Z (z : Z) : float := binary_normalize prec emax z 0 false.

(** The value nearest to [n / d] for integers [n] and [d > 0]. *)
Definition of_ratio (n : Z) (d : positive) : float :=
  match n with
  | Z0 => zero
  | Zpos p => div (S754_finite false p 0) (S754_finite false d 0)
  | Zneg p => div (S754_finite true p 0) (S754_finite false d 0)
  end.

(** The value nearest to [m * 10 ^ e], as [float()] reads a decimal literal;
    [neg] is the sign of the literal, kept on a zero. *)
Definition of_decimal (neg : bool) (m : Z) (e : Z) : float :=
  match m with
  | Z0 => S754_zero neg
  | _ =>
    let sm := if neg then - Z.abs m else Z.abs m in
    match e with
    | Zneg p => of_ratio sm (Pos.pow 10 p)
    | _ => of_Z (sm * 10 ^ e)
    end
  end.

(** Division of [a >= 0] by [b > 0] rounded to the nearest integer, ties to
    even. *)
Definition div_half_even (a b : Z) : Z :=
  let q := a / b in
  let r := a mod b in
  match Z.compare (2 * r) b with
  | Lt => q
  | Gt => q + 1
  | Eq => if Z.even q then q else q + 1
  end.

(** [|x| * 10 ^ p] rounded to the nearest integer, ties to even, for a finite
    [x]: the digits of [x] with [p] decimal places. *)
Definition scaled_magnitude (x : float) (p : nat) : Z :=
  match x with
  | S754_finite _ m e =>
    match e with
    | Zneg k => div_half_even (Zpos m * 10 ^ Z.of_nat p) (Zpos (Pos.pow 2 k))
    | _ => Zpos m * 2 ^ e * 10 ^ Z.of_nat p
    end
  | _ => 0
  end.

(** Truncation toward zero of a finite value. *)
Definition trunc (x : float) : Z :=
  match x with
  | S754_finite s m e =>
    let a := match e with
             | Zneg k => Zpos m / Zpos (Pos.pow 2 k)
             | _ => Zpos m * 2 ^ e
             end in
    if s then - a else a
  | _ => 0
  end.

(** The least integer not below a finite value. *)
Definition ceil (x : float) : Z :=
  match x with
  | S754_finite s m e =>
    match e with
    | Zneg k =>
      let d := Zpos (Pos.pow 2 k) in
      if s then - (Zpos m / d) else (Zpos m + d - 1) / d
    | _ => if s then - (Zpos m * 2 ^ e) else Zpos m * 2 ^ e
    end
  | _ => 0
  end.

(** The greatest integer not above a finite value. *)
Definition floor (x : float) : Z := - ceil (SFopp x).

End F64.

(** ** Strings *)

Module Str.

(** [str.isspace] on the code points below 256. *)
Definition is_space (c : ascii) : bool :=
  let n := N_of_ascii c in
  ((9 <=? n) && (n <=? 13) || (28 <=? n) && (n <=? 32)
   || (n =? 133) || (n =? 160))%N.

Definition is_empty (s : string) : bool :=
  match s with EmptyString => true | _ => false end.

(** [s.split()]: the maximal runs of non-blank characters, in order. *)
Fixpoint split_from (s tok : string) : list string :=
  match s with
  | EmptyString => if is_empty tok then [] else [tok]
  | String c r =>
    if is_space c
    then (if is_empty tok then split_from r "" else tok :: split_from r "")
    else split_from r (tok ++ String c "")
  end.

Definition split (s : string) : list string := split_from s "".

(** [s[0]], when there is one. *)
Definition first (s : string) : option ascii :=
  match s with EmptyString => None | String c _ => Some c end.

(** [c.upper()] and [c.lower()] compared with an ASCII letter: only an ASCII
    letter of the other case maps to one. *)
Definition upper (c : ascii) : ascii :=
  let n := N_of_ascii c in
  if ((97 <=? n) && (n <=? 122))%N then ascii_of_N (n - 32) else c.

Definition lower (c : ascii) : ascii :=
  let n := N_of_ascii c in
  if ((65 <=? n) && (n <=? 90))%N then ascii_of_N (n + 32) else c.

Fixpoint lower_all (s : string) : string :=
  match s with
  | EmptyString => EmptyString
  | String c r => String (lower c) (lower_all r)
  end.

(** [re.match(r'.*i[Bb]', s)] succeeds: an [i] directly followed by [B] or
    [b] occurs in [s], every character before it being matched by [.], which
    leaves out the line feed only. *)
Fixpoint match_iB (s : string) : bool :=
  match s with
  | String "i" (String "B" _) => true
  | String "i" (String "b" _) => true
  | String c r => if Ascii.eqb c "010" then false else match_iB r
  | EmptyString => false
  end.

Definition digit_of (c : ascii) : option Z :=
  let n := N_of_ascii c in
  if ((48 <=? n) && (n <=? 57))%N then Some (Z.of_N (n - 48)) else None.

(** A run [digit (["_"] digit)*] continued: the digits read so far have
    value [acc] and number [n]. *)
Fixpoint digits_from (s : string) (acc : Z) (n : nat) : Z * nat * string :=
  match s with
  | String c r =>
    match digit_of c with
    | Some d => digits_from r (10 * acc + d) (S n)
    | None =>
      match n, c, r with
      | S _, "_"%char, String c' r' =>
        match digit_of c' with
        | Some d => digits_from r' (10 * acc + d) (S n)
        | None => (acc, n, s)
        end
      | _, _, _ => (acc, n, s)
      end
    end
  | EmptyString => (acc, n, s)
  end.

Definition digits (s : string) : Z * nat * string := digits_from s 0 O.

Definition sign_of (s : string) : bool * string :=
  match s with
  | String "-" r => (true, r)
  | String "+" r => (false, r)
  | _ => (false, s)
  end.

(** The exponent part of a literal: absent, or [e] or [E], a sign and
    digits up to the end. *)
Definition exponent (s : string) : option Z :=
  match s with
  | EmptyString => Some 0
  | String c r =>
    if Ascii.eqb (lower c) "e" then
      let '(neg, r1) := sign_of r in
      match digits r1 with
      | (_, O, _) => None
      | (v, S _, EmptyString) => Some (if neg then - v else v)
      | _ => None
      end
    else None
  end.

(** [float(s)] for a string without surrounding blanks: [None] where Python
    raises [ValueError]. *)
Definition to_float (s : string) : option F64.float :=
  let '(neg, r) := sign_of s in
  let l := lower_all r in
  if String.eqb l "inf" || String.eqb l "infinity" then
    Some (S754_infinity neg)
  else if String.eqb l "nan" then Some F64.nan
  else
    let '(ip, ni, r1) := digits r in
    let '(fp, nf, r2) :=
      match r1 with
      | String "." r1' => digits r1'
      | _ => (0, O, r1)
      end in
    match (ni + nf)%nat with
    | O => None
    | S _ =>
      match exponent r2 with
      | Some ex =>
        Some (F64.of_decimal neg (ip * 10 ^ Z.of_nat nf + fp)
                (ex - Z.of_nat nf))
      | None => None
      end
    end.

Fixpoint zeros (n : nat) : string :=
  match n with O => "" | S k => String "0" (zeros k) end.

Definition of_nonneg (z : Z) : string :=
  NilZero.string_of_uint (N.to_uint (Z.to_N z)).

(** [format(x, '.<p>f')]: the decimal expansion of [x] correctly rounded to
    [p] places. *)
Definition format_f (x : F64.float) (p : nat) : string :=
  match x with
  | S754_nan => "nan"
  | S754_infinity s => if s then "-inf" else "inf"
  | S754_zero s | S754_finite s _ _ =>
    let ds := of_nonneg (F64.scaled_magnitude x p) in
    let ds := zeros (S p - String.length ds) ++ ds in
    let k := (String.length ds - p)%nat in
    (if s then "-" else "")
    ++ substring 0 k ds
    ++ match p with O => "" | S _ => "." ++ substring k p ds end
  end.

End Str.

(** ** Numbers and values *)

(** A Python number is an [int] or a [float]. *)
Inductive number : Type :=
  | Int (z : Z)
  | Float (f : F64.float).

(** What [parse_size] takes and returns: [str | int | float]. *)
Inductive value : Type :=
  | Str (s : string)
  | Num (n : number).

Module Num.

(** [abs(x)] *)
Definition abs (x : number) : number :=
  match x with
  | Int z => Int (Z.abs z)
  | Float f => Float (F64.abs f)
  end.

(** [x < k] for an integer [k] that binary64 holds exactly. *)
Definition ltb_int (x : number) (k : Z) : bool :=
  match x with
  | Int z => Z.ltb z k
  | Float f => F64.ltb f (F64.of_Z k)
  end.

(** [x / k] for an integer [k > 0] that binary64 holds exactly: the quotient
    of two [int]s is the nearest [float] to the exact quotient, and raises
    [OverflowError] when that is beyond the range. *)
Definition truediv_int (x : number) (k : Z) : result F64.float :=
  match x with
  | Int z =>
    let q := F64.of_ratio z (Z.to_pos k) in
    if F64.is_finite q then Ok q else Raise OverflowError
  | Float f => Ok (F64.div f (F64.of_Z k))
  end.

(** [float(x)] *)
Definition to_float (x : number) : result F64.float :=
  match x with
  | Int z =>
    let f := F64.of_Z z in
    if F64.is_finite f then Ok f else Raise OverflowError
  | Float f => Ok f
  end.

(** [int(f)] *)
Definition int_of_float (f : F64.float) : result Z :=
  match f with
  | S754_nan => Raise ValueError
  | S754_infinity _ => Raise OverflowError
  | _ => Ok (F64.trunc f)
  end.

(** [f"{x:.{p}f}"] *)
Definition format_f (x : number) (p : nat) : result string :=
  f <- to_float x ;; Ok (Str.format_f f p).

End Num.

(** ** [parse_size] *)

Definition min_unit : string := "B".
Definition units_prefixes : list string :=
  ["K"; "M"; "G"; "T"; "P"; "E"; "Z"; "Y"].

Definition binary_units : list string :=
  map (fun x => x ++ "i" ++ min_unit) units_prefixes.
Definition decimal_units : list string :=
  map (fun x => x ++ min_unit) units_prefixes.

(** Lines 77-80: the factor and the unit names chosen by [binary]. *)
Definition system (binary : bool) : Z * list string :=
  if binary then (2 ^ 10, binary_units) else (10 ^ 3, decimal_units).

(** [dict(zip(units, [factor ** i for i in range(1, len(units) + 1)]))] *)
Definition unit_dict (factor : Z) (units : list string) : list (string * Z) :=
  combine units
    (map (fun i => factor ^ Z.of_nat i) (seq 1 (List.length units))).

Fixpoint lookup (k : string) (d : list (string * Z)) : option Z :=
  match d with
  | [] => None
  | (k', v) :: r => if String.eqb k' k then Some v else lookup k r
  end.

(** [[s for s in units if s[0] == sym[0].upper()]] *)
Definition matching_units (units : list string) (c : ascii) : list string :=
  filter (fun s => match Str.first s with
                   | Some c' => Ascii.eqb c' (Str.upper c)
                   | None => false
                   end) units.

(** Lines 86-89: the unit whose first letter is that of [sym], its size in
    bytes, and the product truncated. *)
Definition to_bytes (factor : Z) (units : list string) (val sym : string)
    : result Z :=
  c <- of_option IndexError (Str.first sym) ;;
  unit <- of_option IndexError (hd_error (matching_units units c)) ;;
  x <- of_option ValueError (Str.to_float val) ;;
  k <- of_option IndexError (lookup unit (unit_dict factor units)) ;;
  Num.int_of_float (F64.mul x (F64.of_Z k)).

(** Lines 82-89: a size written as [value symbol]. *)
Definition parse_size_str (size : string) (binary : bool) : result Z :=
  let '(factor, units) := system binary in
  match Str.split size with
  | [val; sym] =>
    let '(factor, units) :=
      if Str.match_iB sym then (2 ^ 10, binary_units) else (factor, units) in
    to_bytes factor units val sym
  | _ => Raise ValueError
  end.

(** Lines 95-100: the loop over [[min_unit] + units].  [None] when the loop
    runs to its end without a [break]. *)
Fixpoint format_loop (factor : Z) (last_unit : string) (is_negative : bool)
    (precision : nat) (us : list string) (temp_size : number)
    : result (option string) :=
  match us with
  | [] => Ok None
  | unit :: rest =>
    if Num.ltb_int (Num.abs temp_size) factor then
      s <- Num.format_f temp_size precision ;;
      Ok (Some ((if is_negative then "-" else "") ++ s ++ " " ++ unit))
    else if negb (String.eqb unit last_unit) then
      t <- Num.truediv_int temp_size factor ;;
      format_loop factor last_unit is_negative precision rest (Float t)
    else
      format_loop factor last_unit is_negative precision rest temp_size
  end.

(** Lines 91-102: a size given as a number. *)
Definition parse_size_num (size : number) (binary : bool) (precision : nat)
    : result value :=
  let '(factor, units) := system binary in
  let is_negative := Num.ltb_int size 0 in
  r <- format_loop factor (last units "") is_negative precision
         (min_unit :: units) (Num.abs size) ;;
  match r with
  | Some s => Ok (Str s)
  | None => Ok (Num size)
  end.

Definition parse_size (size : value) (binary : bool) (precision : nat)
    : result value :=
  match size with
  | Str s => z <- parse_size_str s binary ;; Ok (Num (Int z))
  | Num n => parse_size_num n binary precision
  end.

(** ** [get_number_of_chunks] *)







(** ** Percentiles *)

Fixpoint insert_sorted (x : F64.float) (l : list F64.float)
    : list F64.float :=
  match l with
  | [] => [x]
  | y :: r => if F64.leb x y then x :: l else y :: insert_sorted x r
  end.

Definition sort (l : list F64.float) : list F64.float :=
  fold_right insert_sorted [] l.

(** numpy's [_lerp(a, b, t)]. *)
Definition lerp (a b t : F64.float) : F64.float :=
  let diff_b_a := F64.sub b a in
  if F64.leb (F64.of_decimal false 5 (-1)) t
  then F64.sub b (F64.mul diff_b_a (F64.sub (F64.of_Z 1) t))
  else F64.add a (F64.mul diff_b_a t).

(** [np.percentile(a, q)] with the default linear method, on a flat array
    of [float]s: the virtual index [(n - 1) * (q / 100)] is split into the
    index below and the fraction [gamma], and the two neighbours in sorted
    order are interpolated.  A NaN in the data gives NaN; an empty array
    raises. *)
Definition percentile (a : list F64.float) (q : Z) : result F64.float :=
  match a with
  | [] => Raise IndexError
  | _ :: _ =>
    if existsb F64.is_nan a then Ok F64.nan
    else
      let arr := sort a in
      let n := Z.of_nat (List.length a) in
      let quantile := F64.div (F64.of_Z q) (F64.of_Z 100) in
      let virtual_index := F64.mul (F64.of_Z (n - 1)) quantile in
      let previous := F64.floor virtual_index in
      let next := Z.min (previous + 1) (n - 1) in
      let gamma := F64.sub virtual_index (F64.of_Z previous) in
      Ok (lerp (nth (Z.to_nat previous) arr F64.nan)
               (nth (Z.to_nat next) arr F64.nan) gamma)
  end.

(** [np.max([a, b])]: [maximum] keeps [a] when [a >= b] or [a] is a NaN. *)
Definition np_max2 (a b : F64.float) : F64.float :=
  if F64.leb b a || F64.is_nan a then a else b.

(** Lines 199-205.  The coefficient [k] is the binary64 value that the
    product [k * iqr] uses. *)
Definition get_extreme_outlier_bounds (num_dat : list F64.float)
    (k : F64.float) : result (F64.float * F64.float) :=
  q1 <- percentile num_dat 25 ;;
  q3 <- percentile num_dat 75 ;;
  let iqr := F64.sub q3 q1 in
  let lower_bound := np_max2 F64.zero (F64.sub q1 (F64.mul k iqr)) in
  let upper_bound := F64.add q3 (F64.mul k iqr) in
  Ok (lower_bound, upper_bound).

(** Lines 229-231: [np.subtract] applied to the two values of
    [np.percentile(num_dat, [75, 25])]. *)
Definition interquartile_range (num_dat : list F64.float)
    : result F64.float :=
  q75 <- percentile num_dat 75 ;;
  q25 <- percentile num_dat 25 ;;
  Ok (F64.sub q75 q25).

(** [list(range(n))] as an array of [float]s. *)
Definition range_floats (n : nat) : list F64.float :=
  map (fun i => F64.of_Z (Z.of_nat i)) (seq 0 n).

(** ** Calendar

    The proleptic Gregorian calendar as [Lib/datetime.py] computes it. *)

Module Calendar.

Definition is_leap (year : Z) : bool :=
  (year mod 4 =? 0) && (negb (year mod 100 =? 0) || (year mod 400 =? 0)).

Definition days_before_year (year : Z) : Z :=
  let y := year - 1 in
  y * 365 + y / 4 - y / 100 + y / 400.

Definition days_in_month (year month : Z) : Z :=
  if (month =? 2) && is_leap year then 29
  else nth (Z.to_nat month) [0; 31; 28; 31; 30; 31; 30; 31; 31; 30; 31; 30; 31] 0.

Definition days_before_month_table : list Z :=
  [0; 0; 31; 59; 90; 120; 151; 181; 212; 243; 273; 304; 334].

Definition days_before_month (year month : Z) : Z :=
  nth (Z.to_nat month) days_before_month_table 0
  + (if (2 <? month) && is_leap year then 1 else 0).

(** The ordinal of a date, 1 for 0001-01-01. *)
Definition ymd2ord (year month day : Z) : Z :=
  days_before_year year + days_before_month year month + day.

(** The date of an ordinal. *)
Definition ord2ymd (n : Z) : Z * Z * Z :=
  let n := n - 1 in
  let n400 := n / 146097 in
  let n := n mod 146097 in
  let year := n400 * 400 + 1 in
  let n100 := n / 36524 in
  let n := n mod 36524 in
  let n4 := n / 1461 in
  let n := n mod 1461 in
  let n1 := n / 365 in
  let n := n mod 365 in
  let year := year + n100 * 100 + n4 * 4 + n1 in
  if (n1 =? 4) || (n100 =? 4) then (year - 1, 12, 31)
  else
    let leapyear := (n1 =? 3) && (negb (n4 =? 24) || (n100 =? 3)) in
    let month := Z.shiftr (n + 50) 5 in
    let preceding :=
      nth (Z.to_nat month) days_before_month_table 0
      + (if (2 <? month) && leapyear then 1 else 0) in
    if n <? preceding then
      let month := month - 1 in
      let preceding :=
        preceding
        - (nth (Z.to_nat month)
             [0; 31; 28; 31; 30; 31; 30; 31; 31; 30; 31; 30; 31] 0
           + (if (month =? 2) && leapyear then 1 else 0)) in
      (year, month, n - preceding + 1)
    else (year, month, n - preceding + 1).

(** The ordinal of 1970-01-01. *)
Definition unix_epoch_ord : Z := ymd2ord 1970 1 1.

End Calendar.

(** A broken-down time ([datetime.datetime] without a time zone). *)
Record datetime : Type := mk_datetime {
  year : Z; month : Z; day : Z;
  hour : Z; minute : Z; second : Z; microsecond : Z
}.

(** The microseconds of a [datetime] since 0001-01-01. *)
Definition datetime_us (d : datetime) : Z :=
  (((Calendar.ymd2ord (year d) (month d) (day d) - 1) * 86400
    + hour d * 3600 + minute d * 60 + second d) * 1000000)
  + microsecond d.

(** [(a - b).total_seconds()] *)
Definition total_seconds_between (a b : datetime) : F64.float :=
  F64.of_ratio (datetime_us a - datetime_us b) 1000000.

(** The broken-down time that lies [secs] seconds and [us] microseconds
    after the Unix epoch; a [datetime] must have its year in [1 .. 9999]. *)
Definition civil_of_unix (secs us : Z) : datetime :=
  let days := secs / 86400 in
  let sod := secs mod 86400 in
  let '(y, m, d) := Calendar.ord2ymd (Calendar.unix_epoch_ord + days) in
  mk_datetime y m d (sod / 3600) (sod mod 3600 / 60) (sod mod 60) us.

Definition datetime_of_unix (secs us : Z) : result datetime :=
  let d := civil_of_unix secs us in
  if (1 <=? year d) && (year d <=? 9999) then Ok d else Raise ValueError.

(** [round(x)] for a finite [x]: to the nearest integer, ties to even. *)
Definition round_half_even (x : F64.float) : Z :=
  match x with
  | S754_finite s m e =>
    let a := match e with
             | Zneg k => F64.div_half_even (Zpos m) (Zpos (Pos.pow 2 k))
             | _ => Zpos m * 2 ^ e
             end in
    if s then - a else a
  | _ => 0
  end.

(** [datetime.datetime.utcfromtimestamp(t)]: the fraction of [t] is rounded
    to microseconds, ties to even; the seconds must fit [time_t]. *)
Definition utcfromtimestamp (t : F64.float) : result datetime :=
  match t with
  | S754_nan => Raise ValueError
  | S754_infinity _ => Raise OverflowError
  | _ =>
    let secs := F64.trunc t in
    let frac := F64.sub t (F64.of_Z secs) in
    let us := round_half_even (F64.mul frac (F64.of_Z 1000000)) in
    let '(secs, us) :=
      if 1000000 <=? us then (secs + 1, us - 1000000)
      else if us <? 0 then (secs - 1, us + 1000000)
      else (secs, us) in
    if (- 2 ^ 63 <=? secs) && (secs <? 2 ^ 63) then datetime_of_unix secs us
    else Raise OverflowError
  end.

(** ** [gps_time_to_utc] *)

Definition gps_epoch : datetime := mk_datetime 1980 1 6 0 0 0 0.
Definition unix_epoch : datetime := mk_datetime 1970 1 1 0 0 0 0.

(** Lines 33-37. *)
Definition gps_time_to_utc (gps_time : F64.float) : result datetime :=
  let gps_from_utc := total_seconds_between gps_epoch unix_epoch in
  utcfromtimestamp (F64.add gps_time gps_from_utc).

(** ** [find_closest_date] *)

(** A date as the function takes and returns it: a string, or a point in
    time ([datetime.datetime] or [pandas.Timestamp]) counted in nanoseconds
    since the Unix epoch. *)
Inductive date_like : Type :=
  | DateStr (s : string)
  | DateTime (t : Z).

Section ClosestDate.

(** [pd.to_datetime] on a string ([None] where it raises) and
    [strftime]. *)
Variable to_timestamp : string -> option Z.
Variable strftime : Z -> string -> string.

Definition to_datetime (x : date_like) : result Z :=
  match x with
  | DateStr s => of_option ValueError (to_timestamp s)
  | DateTime t => Ok t
  end.

(** [lambda x: abs(pd.to_datetime(x) - pd.to_datetime(date))], in
    nanoseconds. *)
Definition distance (date x : date_like) : result Z :=
  a <- to_datetime x ;;
  b <- to_datetime date ;;
  Ok (Z.abs (a - b)).

(** [min(iterable, key=key)]: the first item whose key is least. *)
Fixpoint min_from {A : Type} (key : A -> result Z) (best : A) (kbest : Z)
    (l : list A) : result A :=
  match l with
  | [] => Ok best
  | x :: r =>
    k <- key x ;;
    if k <? kbest then min_from key x k r else min_from key best kbest r
  end.

Definition py_min {A : Type} (key : A -> result Z) (l : list A)
    : result A :=
  match l with
  | [] => Raise ValueError
  | x :: r => k <- key x ;; min_from key x k r
  end.

(** Lines 275-285. *)
Definition find_closest_date (date : date_like)
    (lookup_dates : list date_like) (as_datetime : bool) (fmt : string)
    : result date_like :=
  closest_date <- py_min (distance date) lookup_dates ;;
  if as_datetime then
    match closest_date with
    | DateStr _ => t <- to_datetime closest_date ;; Ok (DateTime t)
    | DateTime _ => Ok closest_date
    end
  else
    match closest_date with
    | DateTime t => Ok (DateStr (strftime t fmt))
    | DateStr _ => Ok closest_date
    end.

End ClosestDate.

(** The part of pandas that the documented example uses. *)
Module Pandas.

Definition ns_per_second : Z := 1000000000.
Definition ns_per_day : Z := 86400 * ns_per_second.

(** Exactly [n] decimal digits at the head of a string. *)
Fixpoint fixed_digits (n : nat) (s : string) (acc : Z)
    : option (Z * string) :=
  match n with
  | O => Some (acc, s)
  | S k =>
    match s with
    | String c r =>
      match Str.digit_of c with
      | Some d => fixed_digits k r (10 * acc + d)
      | None => None
      end
    | EmptyString => None
    end
  end.

Definition expect (c : ascii) (s : string) : option string :=
  match s with
  | String c' r => if Ascii.eqb c c' then Some r else None
  | EmptyString => None
  end.

Definition valid_date (y m d : Z) : bool :=
  (1 <=? m) && (m <=? 12) && (1 <=? d) && (d <=? Calendar.days_in_month y m).

(** [pd.to_datetime] on the ISO 8601 form [YYYY-MM-DD], midnight of that
    day; other forms are outside this model. *)
Definition to_timestamp (s : string) : option Z :=
  match fixed_digits 4 s 0 with
  | Some (y, s1) =>
    match expect "-" s1 with
    | Some s2 =>
      match fixed_digits 2 s2 0 with
      | Some (m, s3) =>
        match expect "-" s3 with
        | Some s4 =>
          match fixed_digits 2 s4 0 with
          | Some (d, EmptyString) =>
            if valid_date y m d then
              Some ((Calendar.ymd2ord y m d - Calendar.unix_epoch_ord)
                    * ns_per_day)
            else None
          | _ => None
          end
        | None => None
        end
      | None => None
      end
    | None => None
    end
  | None => None
  end.

Definition pad (width : nat) (z : Z) : string :=
  let ds := Str.of_nonneg z in
  Str.zeros (width - String.length ds) ++ ds.

(** [strftime] for the directives of the default format, [%Y %m %d %H %M %S
    %f] and [%%]; any other character is copied. *)
Fixpoint strftime_at (d : datetime) (fmt : string) : string :=
  match fmt with
  | String "%" (String c r) =>
    (if Ascii.eqb c "Y" then pad 4 (year d)
     else if Ascii.eqb c "m" then pad 2 (month d)
     else if Ascii.eqb c "d" then pad 2 (day d)
     else if Ascii.eqb c "H" then pad 2 (hour d)
     else if Ascii.eqb c "M" then pad 2 (minute d)
     else if Ascii.eqb c "S" then pad 2 (second d)
     else if Ascii.eqb c "f" then pad 6 (microsecond d)
     else if Ascii.eqb c "%" then "%"
     else String "%" (String c ""))
    ++ strftime_at d r
  | String c r => String c (strftime_at d r)
  | EmptyString => EmptyString
  end.

Definition strftime (t : Z) (fmt : string) : string :=
  strftime_at
    (civil_of_unix (t / ns_per_second) (t mod ns_per_second / 1000)) fmt.

(** [pd.date_range(start, end)]: every midnight from [start] to [end]. *)
Definition date_range (start stop : string) : list date_like :=
  match to_timestamp start, to_timestamp stop with
  | Some a, Some b =>
    map (fun i => DateTime (a + Z.of_nat i * ns_per_day))
        (seq 0 (Z.to_nat ((b - a) / ns_per_day + 1)))
  | _, _ => []
  end.

End Pandas.

Definition default_fmt : string := "%Y-%m-%d %H:%M:%S.%f".

(** ** What the properties are stated with *)

(** The place of a unit symbol's first letter among the prefixes
    [K M G T P E Z Y], whatever its case. *)
Fixpoint find_prefix (c : ascii) (l : list string) (i : nat) : option nat :=
  match l with
  | [] => None
  | p :: r =>
    if String.eqb p (String c "") then Some i else find_prefix c r (S i)
  end.

Definition prefix_index (sym : string) : option nat :=
  match Str.first sym with
  | Some c => find_prefix (Str.upper c) units_prefixes 0
  | None => None
  end.

(** The byte count of [val] units of [sym] when a unit step is [factor]:
    the value times [factor] to the rank of the prefix, truncated. *)
Definition scaled (factor : Z) (val sym : string) : result value :=
  match prefix_index sym with
  | None => Raise IndexError
  | Some i =>
    match Str.to_float val with
    | None => Raise ValueError
    | Some x =>
      z <- Num.int_of_float
             (F64.mul x (F64.of_Z (factor ^ Z.of_nat (S i)))) ;;
      Ok (Num (Int z))
    end
  end.

(** The factor that the suffix alone would decide. *)
Definition suffix_factor (sym : string) : Z :=
  if Str.match_iB sym then 1024 else 1000.

(** The factor that the code uses: 1024 for a suffix with [iB], and
    otherwise the one that [binary] selects. *)
Definition used_factor (sym : string) (binary : bool) : Z :=
  if Str.match_iB sym then 1024 else if binary then 1024 else 1000.

(** The factor and the unit names of a mode. *)
Definition factor_of (binary : bool) : Z := fst (system binary).

(** The unit reached after [k] divisions: [B], then the units of the
    mode. *)
Definition unit_name (binary : bool) (k : nat) : string :=
  nth k (min_unit :: snd (system binary)) "".

(** The magnitude divided [k] times by the factor. *)
Fixpoint divided (factor : Z) (k : nat) (x : number) : result number :=
  match k with
  | O => Ok x
  | S j =>
    y <- divided factor j x ;;
    t <- Num.truediv_int y factor ;;
    Ok (Float t)
  end.

(** The magnitude is below the factor. *)
Definition below (factor : Z) (x : number) : bool :=
  Num.ltb_int (Num.abs x) factor.

(** A number as a [float]. *)
Definition as_float (x : number) : F64.float :=
  match x with Int z => F64.of_Z z | Float f => f end.

(** A size as the claim describes its text: sign, magnitude with
    [precision] places, a blank and the unit. *)
Definition size_text (negative : bool) (magnitude : number)
    (precision : nat) (unit : string) : string :=
  (if negative then "-" else "")
  ++ Str.format_f (as_float magnitude) precision ++ " " ++ unit.

(** ** Values of floats

    The notions in which the rounding of a quotient is described: where a
    quotient lies between two integers, the shape of a rounded result, the
    rational value of a mantissa and an exponent, and mantissas in
    canonical position. *)

(** The position of [N / D] between [m] and [m + 1], as the round and sticky
    bits of a shift record tell it. *)
Definition located (N D : Z) (r : shr_record) : Prop :=
  0 < D
  /\ shr_m r * D <= N < (shr_m r + 1) * D
  /\ (shr_r r = true <-> D <= 2 * (N - shr_m r * D))
  /\ (shr_s r = true <-> N - shr_m r * D <> 0 /\ 2 * (N - shr_m r * D) <> D).

(** The exponent of the binary64 values of magnitude below [2 ^ e]. *)
Definition fexp64 (e : Z) : Z := Z.max (e - 53) (-1074).

(** The result of rounding, from the rounded mantissa [mr] at the exponent
    [e]. *)
Definition round_shape (s : bool) (mr e : Z) : spec_float :=
  if mr =? 0 then S754_zero s
  else if mr <? 2 ^ 53 then
    if e <=? 971 then S754_finite s (Z.to_pos mr) e else S754_infinity s
  else
    if e + 1 <=? 971 then S754_finite s (Z.to_pos (2 ^ 52)) (e + 1)
    else S754_infinity s.


(** The value [m * 2 ^ e]. *)
Definition dyadic (m e : Z) : Q := (inject_Z m * 2 ^ e)%Q.

(** The mantissa [m] is in canonical position at the exponent [e]. *)
Definition canonical (m e : Z) : Prop := fexp64 (Zdigits2 m + e) = e.

(** [x] is at least the canonical value [mc * 2 ^ ec]: an infinity, or a
    canonical finite value that is not smaller. *)
Definition at_least (mc ec : Z) (x : spec_float) : Prop :=
  match x with
  | S754_infinity false => True
  | S754_finite false m e =>
    bounded 53 1024 m e = true /\ (dyadic mc ec <= dyadic (Zpos m) e)%Q
  | _ => False
  end.

(** ** Magnitudes that the units do not reach *)









(** ** Order and percentiles *)

(** In ascending order. *)
Definition ascending (l : list F64.float) : Prop :=
  Sorted (fun a b => F64.leb a b = true) l.

(** The percentile of rank [q] of an array in ascending order, by linear
    interpolation: with [h = (n - 1) * (q / 100)], the values at the
    indexes [floor h] and [floor h + 1] (at most [n - 1]) are the
    neighbours [a] and [b], and the fraction [g = h - floor h] weighs them:
    [a + (b - a) * g], computed from [b] when [g] is at least one half. *)
Definition linear_percentile (arr : list F64.float) (q : Z) : F64.float :=
  let n := Z.of_nat (List.length arr) in
  let h := F64.mul (F64.of_Z (n - 1)) (F64.div (F64.of_Z q) (F64.of_Z 100)) in
  let i := F64.floor h in
  let g := F64.sub h (F64.of_Z i) in
  let a := nth (Z.to_nat i) arr F64.nan in
  let b := nth (Z.to_nat (Z.min (i + 1) (n - 1))) arr F64.nan in
  if F64.leb (F64.of_decimal false 5 (-1)) g
  then F64.sub b (F64.mul (F64.sub b a) (F64.sub (F64.of_Z 1) g))
  else F64.add a (F64.mul (F64.sub b a) g).

(** ** Dates and timestamps *)

(** The date of the ordinal [n] is a date of the calendar, and its ordinal
    is [n]. *)
Definition ord_ok (n : Z) : bool :=
  let '(y, m, d) := Calendar.ord2ymd n in
  (Calendar.ymd2ord y m d =? n) && (1 <=? m) && (m <=? 12)
  && (1 <=? d) && (d <=? Calendar.days_in_month y m).

(** [ord_ok] on the [k] ordinals from 1 on: the next ordinal and the
    verdict so far. *)
Definition ord_ok_upto (k : N) : Z * bool :=
  N.iter k (fun '(n, b) => (n + 1, b && ord_ok n)) (1, true).

(** The timestamp [t] in microseconds, the fraction rounded as
    [utcfromtimestamp] rounds it. *)
Definition timestamp_micros (t : F64.float) : Z :=
  F64.trunc t * 1000000
  + round_half_even
      (F64.mul (F64.sub t (F64.of_Z (F64.trunc t))) (F64.of_Z 1000000)).

(** The fields of a [datetime] are those of a date and a time of day. *)
Definition well_formed (d : datetime) : Prop :=
  1 <= year d <= 9999
  /\ 1 <= month d <= 12
  /\ 1 <= day d <= Calendar.days_in_month (year d) (month d)
  /\ 0 <= hour d < 24 /\ 0 <= minute d < 60 /\ 0 <= second d < 60.

(** ** Whole numbers as floats *)

(** The canonical mantissa and exponent of a positive integer below
    [2 ^ 53]. *)
Definition int_mantissa (n : Z) : Z := n * 2 ^ (53 - Zdigits2 n).
Definition int_exponent (n : Z) : Z := Zdigits2 n - 53.

(** * Properties *)

(** ** Sizes read from a string *)

Lemma matching_units_prefix (binary : bool) (c : ascii) :
  hd_error (matching_units (snd (system binary)) c) =
  option_map (fun i => nth i (snd (system binary)) "")
    (find_prefix (Str.upper c) units_prefixes 0).
Proof.
  unfold matching_units.
  destruct (Str.upper c) as [[] [] [] [] [] [] [] []]; destruct binary;
    reflexivity.
Qed.

Lemma find_prefix_bound (u : ascii) (i : nat) :
  find_prefix u units_prefixes 0 = Some i -> (i < 8)%nat.
Proof.
  unfold units_prefixes. simpl.
  repeat match goal with
  | |- context [if ?b then _ else _] => destruct b
  end; intros H; inversion H; lia.
Qed.

Lemma lookup_unit_dict (factor : Z) (binary : bool) (i : nat) :
  (i < 8)%nat ->
  lookup (nth i (snd (system binary)) "")
    (unit_dict factor (snd (system binary)))
  = Some (factor ^ Z.of_nat (S i)).
Proof.
  intros Hi.
  do 8 (destruct i as [|i]; [destruct binary; reflexivity|]). lia.
Qed.

Lemma to_bytes_scaled (factor : Z) (binary : bool) (val sym : string) :
  (z <- to_bytes factor (snd (system binary)) val sym ;; Ok (Num (Int z)))
  = scaled factor val sym.
Proof.
  unfold to_bytes, scaled, prefix_index.
  destruct (Str.first sym) as [c|]; [|reflexivity].
  cbn [of_option bind]. rewrite matching_units_prefix.
  destruct (find_prefix (Str.upper c) units_prefixes 0) as [i|] eqn:Ei;
    [|reflexivity].
  cbn [option_map of_option bind].
  rewrite (lookup_unit_dict factor binary i (find_prefix_bound _ _ Ei)).
  destruct (Str.to_float val); reflexivity.
Qed.

Lemma parse_size_str_scaled (size val sym : string) (binary : bool)
    (precision : nat) :
  Str.split size = [val; sym] ->
  parse_size (Str size) binary precision
  = scaled (used_factor sym binary) val sym.
Proof.
  intros Hs. unfold parse_size, parse_size_str, used_factor.
  rewrite Hs.
  destruct (Str.match_iB sym), binary; cbn [system];
    first [ exact (to_bytes_scaled 1024 true val sym)
          | exact (to_bytes_scaled 1000 false val sym) ].
Qed.

(** C1, as stated, fails: with [binary=True] the decimal-style suffix [MB]
    is scaled by 1024, so ['123.45 MB'] gives 129446707 and not the
    1000-based 123450000 that the suffix alone would decide. *)
Lemma parse_size_decimal_suffix_counterexample :
  parse_size (Str "123.45 MB") true 1 = Ok (Num (Int 129446707))
  /\ scaled (suffix_factor "MB") "123.45" "MB" = Ok (Num (Int 123450000))
  /\ parse_size (Str "123.45 MB") true 1
     <> scaled (suffix_factor "MB") "123.45" "MB".
Proof.
  split; [vm_compute; reflexivity|].
  split; [vm_compute; reflexivity|].
  vm_compute. discriminate.
Qed.

(** C1, amended: for a string that splits into a value and a symbol, the
    byte count is the value scaled by 1024 when the symbol contains [iB] or
    [ib], whatever [binary] is, and otherwise by the factor that [binary]
    selects, 1024 for [True] and 1000 for [False]. *)
Theorem parse_size_str_factor (size val sym : string) (binary : bool)
    (precision : nat) :
  Str.split size = [val; sym] ->
  parse_size (Str size) binary precision
  = scaled (if Str.match_iB sym then 1024
            else if binary then 1024 else 1000) val sym.
Proof.
  exact (parse_size_str_scaled size val sym binary precision).
Qed.

Lemma parse_size_str_factor_witness :
  Str.split "123.45 MiB" = ["123.45"; "MiB"]
  /\ parse_size (Str "123.45 MiB") false 1
     = scaled (if Str.match_iB "MiB" then 1024
               else if false then 1024 else 1000) "123.45" "MiB".
Proof.
  split; [reflexivity|].
  apply (parse_size_str_factor "123.45 MiB" "123.45" "MiB" false 1).
  reflexivity.
Defined.

(** C9: a malformed size string makes [parse_size] raise, and the exception
    is the result of the call.  Not exactly two fields: [ValueError]; a
    symbol whose first letter is no unit prefix: [IndexError], a
    [LookupError]; a known prefix after a field that is not a number:
    [ValueError]. *)
Theorem parse_size_malformed (size : string) (binary : bool)
    (precision : nat) :
  (List.length (Str.split size) <> 2%nat ->
   parse_size (Str size) binary precision = Raise ValueError)
  /\ (forall val sym, Str.split size = [val; sym] ->
      prefix_index sym = None ->
      parse_size (Str size) binary precision = Raise IndexError
      /\ is_lookup_error IndexError = true)
  /\ (forall val sym, Str.split size = [val; sym] ->
      prefix_index sym <> None ->
      Str.to_float val = None ->
      parse_size (Str size) binary precision = Raise ValueError).
Proof.
  split; [|split].
  - intros Hn. unfold parse_size, parse_size_str.
    destruct (Str.split size) as [|a [|b [|c l]]]; destruct binary;
      try reflexivity; exfalso; apply Hn; reflexivity.
  - intros val sym Hs Hp. split; [|reflexivity].
    rewrite (parse_size_str_scaled size val sym binary precision Hs).
    unfold scaled. rewrite Hp. reflexivity.
  - intros val sym Hs Hp Hv.
    rewrite (parse_size_str_scaled size val sym binary precision Hs).
    unfold scaled. destruct (prefix_index sym); [|congruence].
    rewrite Hv. reflexivity.
Qed.

Lemma parse_size_malformed_witness :
  parse_size (Str "12MB") true 1 = Raise ValueError
  /\ parse_size (Str "1 XB") true 1 = Raise IndexError
  /\ parse_size (Str "abc MB") true 1 = Raise ValueError.
Proof.
  pose proof (parse_size_malformed "12MB" true 1) as [H1 _].
  pose proof (parse_size_malformed "1 XB" true 1) as [_ [H2 _]].
  pose proof (parse_size_malformed "abc MB" true 1) as [_ [_ H3]].
  split; [|split].
  - apply H1. vm_compute. discriminate.
  - apply (H2 "1" "XB"); reflexivity.
  - apply (H3 "abc" "MB"); [reflexivity | vm_compute; discriminate
                           | reflexivity].
Defined.

(** C2 at a failing input: the byte count 5 is written ['5.0 B'], and
    reading ['5.0 B'] back raises [IndexError], because [B] is the first
    letter of no unit that the reading branch knows. *)
Lemma parse_size_round_trip_bytes :
  parse_size (Num (Int 5)) true 1 = Ok (Str "5.0 B")
  /\ parse_size (Str "5.0 B") true 1 = Raise IndexError
  /\ parse_size (Num (Int 5)) false 1 = Ok (Str "5.0 B")
  /\ parse_size (Str "5.0 B") false 1 = Raise IndexError.
Proof.
  repeat split; vm_compute; reflexivity.
Qed.

(** ** Sizes written from a number *)

Lemma of_Z_small_finite (z : Z) :
  Z.abs z < 1024 -> F64.is_finite (F64.of_Z z) = true.
Proof.
  intros Hz.
  assert (H : forallb (fun i => F64.is_finite (F64.of_Z (Z.of_nat i - 1023)))
                (seq 0 2047) = true) by (vm_compute; reflexivity).
  rewrite forallb_forall in H.
  specialize (H (Z.to_nat (z + 1023))).
  replace (Z.of_nat (Z.to_nat (z + 1023)) - 1023) with z in H by lia.
  apply H. apply in_seq. lia.
Qed.

Lemma divided_succ_l (factor : Z) (k : nat) (x : number) :
  divided factor (S k) x
  = (t <- Num.truediv_int x factor ;; divided factor k (Float t)).
Proof.
  induction k as [|k IH].
  - simpl. destruct (Num.truediv_int x factor); reflexivity.
  - change (divided factor (S (S k)) x)
      with (y <- divided factor (S k) x ;;
            t <- Num.truediv_int y factor ;; Ok (Float t)).
    rewrite IH. destruct (Num.truediv_int x factor) as [t|e]; reflexivity.
Qed.

Lemma abs_float_idem (t : F64.float) : F64.abs (F64.abs t) = F64.abs t.
Proof. destruct t; reflexivity. Qed.

Lemma format_loop_steps (factor : Z) (last_unit : string) (neg : bool)
    (precision : nat) (k : nat) :
  forall (us : list string) (temp t : number),
  (k < List.length us)%nat ->
  (forall j, (j < k)%nat -> String.eqb (nth j us "") last_unit = false) ->
  divided factor k temp = Ok t ->
  (forall j u, (j < k)%nat -> divided factor j temp = Ok u ->
               below factor u = false) ->
  below factor t = true ->
  format_loop factor last_unit neg precision us temp
  = (s <- Num.format_f t precision ;;
     Ok (Some ((if neg then "-" else "") ++ s ++ " " ++ nth k us ""))).
Proof.
  induction k as [|k IH]; intros us temp t Hlen Hlast Hdiv Hmin Hbelow.
  - simpl in Hdiv. injection Hdiv as ->.
    destruct us as [|u us]; [simpl in Hlen; lia|].
    simpl. unfold below in Hbelow. rewrite Hbelow. reflexivity.
  - destruct us as [|u us]; [simpl in Hlen; lia|].
    rewrite divided_succ_l in Hdiv.
    destruct (Num.truediv_int temp factor) as [q|e] eqn:Eq; [|discriminate].
    simpl in Hdiv.
    cbn [format_loop].
    assert (H0 : below factor temp = false)
      by (apply (Hmin 0%nat temp); [lia | reflexivity]).
    unfold below in H0. rewrite H0.
    assert (H1 : String.eqb u last_unit = false)
      by (apply (Hlast 0%nat); lia).
    rewrite H1. cbn [negb]. rewrite Eq. cbn [bind].
    apply IH.
    + simpl in Hlen. lia.
    + intros j Hj. apply (Hlast (S j)). lia.
    + exact Hdiv.
    + intros j u' Hj Hu. apply (Hmin (S j) u'); [lia|].
      rewrite divided_succ_l, Eq. exact Hu.
    + exact Hbelow.
Qed.

Lemma format_f_below (factor : Z) (t : number) (precision : nat) :
  factor <= 1024 -> below factor t = true ->
  Num.format_f t precision = Ok (Str.format_f (as_float t) precision).
Proof.
  intros Hf Hb. destruct t as [z|f]; [|reflexivity].
  unfold Num.format_f, Num.to_float.
  rewrite of_Z_small_finite; [reflexivity|].
  unfold below in Hb. simpl in Hb. apply Z.ltb_lt in Hb. lia.
Qed.

(** C3, as stated, fails: the magnitude of [1024 ** 9] falls below the
    factor only after nine divisions, for which there is no unit, and the
    call returns the number and not a string. *)
Lemma parse_size_num_counterexample :
  parse_size (Num (Int (1024 ^ 9))) true 1 = Ok (Num (Int (1024 ^ 9)))
  /\ divided 1024 9 (Int (1024 ^ 9)) = Ok (Float (F64.of_Z 1))
  /\ (forall s, parse_size (Num (Int (1024 ^ 9))) true 1 <> Ok (Str s)).
Proof.
  split; [vm_compute; reflexivity|].
  split; [vm_compute; reflexivity|].
  intros s. vm_compute. discriminate.
Qed.

(** C3, amended: when the magnitude of [size] falls below the factor after
    [k] divisions by it and not earlier, for a [k] of at most eight,
    [parse_size] returns the text made of ['-'] for a negative [size], that
    magnitude with [precision] decimal places, a blank and the unit of rank
    [k]. *)
Theorem parse_size_num_formats (size : number) (binary : bool)
    (precision : nat) (k : nat) (t : number) :
  (k <= 8)%nat ->
  divided (factor_of binary) k (Num.abs size) = Ok t ->
  below (factor_of binary) t = true ->
  (forall j u, (j < k)%nat ->
     divided (factor_of binary) j (Num.abs size) = Ok u ->
     below (factor_of binary) u = false) ->
  parse_size (Num size) binary precision
  = Ok (Str (size_text (Num.ltb_int size 0) t precision
               (unit_name binary k))).
Proof.
  intros Hk Hdiv Hbelow Hmin.
  unfold parse_size, parse_size_num, size_text, unit_name, factor_of in *.
  destruct binary; cbn [system fst snd] in *.
  - rewrite (format_loop_steps _ _ _ precision k _ _ t); try assumption.
    + rewrite (format_f_below (2^10) t precision); [reflexivity| lia | assumption].
    + simpl. lia.
    + intros j Hj. do 8 (destruct j as [|j]; [reflexivity|]). lia.
  - rewrite (format_loop_steps _ _ _ precision k _ _ t); try assumption.
    + rewrite (format_f_below (10^3) t precision); [reflexivity| lia | assumption].
    + simpl. lia.
    + intros j Hj. do 8 (destruct j as [|j]; [reflexivity|]). lia.
Qed.

Lemma parse_size_num_formats_witness :
  parse_size (Num (Int (-129446707))) true 2 = Ok (Str "-123.45 MiB").
Proof.
  rewrite (parse_size_num_formats (Int (-129446707)) true 2 2
             (Float (S754_finite false 8687021455310848 (-46)))).
  - vm_compute. reflexivity.
  - lia.
  - vm_compute. reflexivity.
  - vm_compute. reflexivity.
  - intros j u Hj Hu.
    destruct j as [|[|j]]; [| |lia]; vm_compute in Hu;
      injection Hu as <-; vm_compute; reflexivity.
Defined.

(** ** Rounding of a quotient to binary64 *)

Lemma digits2_pos_size (p : positive) : digits2_pos p = Pos.size p.
Proof. induction p; simpl; congruence. Qed.

Lemma digits2_pos_bounds (p : positive) :
  2 ^ (Zpos (digits2_pos p) - 1) <= Zpos p < 2 ^ Zpos (digits2_pos p).
Proof.
  induction p as [p IH|p IH|]; cbn [digits2_pos].
  - rewrite Pos2Z.inj_succ.
    replace (Z.succ (Zpos (digits2_pos p)) - 1) with (Zpos (digits2_pos p) - 1 + 1) by lia.
    rewrite Z.pow_succ_r by lia. rewrite Z.pow_add_r by lia.
    change (2 ^ 1) with 2. lia.
  - rewrite Pos2Z.inj_succ.
    replace (Z.succ (Zpos (digits2_pos p)) - 1) with (Zpos (digits2_pos p) - 1 + 1) by lia.
    rewrite Z.pow_succ_r by lia. rewrite Z.pow_add_r by lia.
    change (2 ^ 1) with 2. lia.
  - simpl. lia.
Qed.

Lemma Zdigits2_bounds (m : Z) :
  0 < m -> 2 ^ (Zdigits2 m - 1) <= m < 2 ^ Zdigits2 m.
Proof.
  destruct m as [|p|p]; try lia. intros _. apply digits2_pos_bounds.
Qed.


Lemma Zdigits2_le (m k : Z) : 0 <= m -> 0 <= k -> m < 2 ^ k -> Zdigits2 m <= k.
Proof.
  intros Hm Hk Hlt. destruct (Z.eq_dec m 0) as [->|Hne]; [simpl; lia|].
  destruct (Zdigits2_bounds m ltac:(lia)) as [Hlo _].
  destruct (Z_le_gt_dec (Zdigits2 m) k) as [|Hgt]; [assumption|exfalso].
  assert (2 ^ k <= 2 ^ (Zdigits2 m - 1)) by (apply Z.pow_le_mono_r; lia).
  lia.
Qed.

Lemma Zdigits2_ge (m k : Z) : 0 <= k -> 2 ^ (k - 1) <= m -> 0 < m -> k <= Zdigits2 m.
Proof.
  intros Hk Hge Hm.
  destruct (Zdigits2_bounds m Hm) as [_ Hhi].
  destruct (Z_le_gt_dec k (Zdigits2 m)) as [|Hgt]; [assumption|exfalso].
  assert (2 ^ Zdigits2 m <= 2 ^ (k - 1)) by (apply Z.pow_le_mono_r; lia).
  lia.
Qed.

Lemma located_half (N D m : Z) (b r s : bool) :
  located N D (Build_shr_record (2 * m + (if b then 1 else 0)) r s) ->
  located N (2 * D) (Build_shr_record m b (r || s)).
Proof.
  unfold located. cbn [shr_m shr_r shr_s].
  replace ((2 * m + (if b then 1 else 0)) * D)
    with (2 * (m * D) + (if b then D else 0)) by (destruct b; ring).
  replace ((2 * m + (if b then 1 else 0) + 1) * D)
    with (2 * (m * D) + (if b then D else 0) + D) by (destruct b; ring).
  replace (m * (2 * D)) with (2 * (m * D)) by ring.
  replace ((m + 1) * (2 * D)) with (2 * (m * D) + 2 * D) by ring.
  generalize (m * D). intros a (HD & Hb & Hr & Hs).
  destruct b, r, s; cbn [orb] in *;
    repeat split; try lia; try (intros; discriminate); try reflexivity;
    intuition (try lia; try discriminate).
Qed.

Lemma shr_1_located (N D : Z) (r : shr_record) :
  0 <= shr_m r -> located N D r ->
  located N (2 * D) (shr_1 r) /\ 0 <= shr_m (shr_1 r)
  /\ shr_m (shr_1 r) = shr_m r / 2.
Proof.
  destruct r as [m r s]. cbn [shr_m].
  intros Hm H.
  destruct m as [|[p|p|]|]; try lia; cbn [shr_1 shr_m].
  - split; [|split; [lia | reflexivity]].
    apply (located_half N D 0 false r s). exact H.
  - split; [|split; [lia |]].
    + apply (located_half N D (Zpos p) true r s).
      replace (2 * Z.pos p + (if true then 1 else 0)) with (Zpos p~1) by lia. exact H.
    + apply Z.div_unique with 1; lia.
  - split; [|split; [lia |]].
    + apply (located_half N D (Zpos p) false r s).
      replace (2 * Z.pos p + (if false then 1 else 0)) with (Zpos p~0) by lia. exact H.
    + apply Z.div_unique with 0; lia.
  - split; [|split; [lia | reflexivity]].
    apply (located_half N D 0 true r s). exact H.
Qed.

Lemma iter_shr_1_located (p : positive) :
  forall (N D : Z) (r : shr_record),
  0 <= shr_m r -> located N D r ->
  located N (D * 2 ^ Zpos p) (iter_pos shr_1 p r)
  /\ 0 <= shr_m (iter_pos shr_1 p r)
  /\ shr_m (iter_pos shr_1 p r) = shr_m r / 2 ^ Zpos p.
Proof.
  induction p as [p IH|p IH|]; intros N D r Hm H; cbn [iter_pos].
  - destruct (shr_1_located N D r Hm H) as (H1 & Hm1 & E1).
    destruct (IH N (2 * D) _ Hm1 H1) as (H2 & Hm2 & E2).
    destruct (IH N (2 * D * 2 ^ Zpos p) _ Hm2 H2) as (H3 & Hm3 & E3).
    replace (D * 2 ^ Zpos p~1) with (2 * D * 2 ^ Zpos p * 2 ^ Zpos p).
    2:{ replace (Zpos p~1) with (1 + Zpos p + Zpos p) by lia.
        rewrite !Z.pow_add_r by lia. change (2 ^ 1) with 2. ring. }
    split; [exact H3|]. split; [exact Hm3|].
    rewrite E3, E2, E1.
    rewrite !Z.div_div by (try lia; apply Z.pow_pos_nonneg; lia).
    f_equal.
    replace (Zpos p~1) with (1 + Zpos p + Zpos p) by lia.
    rewrite !Z.pow_add_r by lia. change (2 ^ 1) with 2. ring.
  - destruct (IH N D _ Hm H) as (H2 & Hm2 & E2).
    destruct (IH N (D * 2 ^ Zpos p) _ Hm2 H2) as (H3 & Hm3 & E3).
    replace (D * 2 ^ Zpos p~0) with (D * 2 ^ Zpos p * 2 ^ Zpos p).
    2:{ replace (Zpos p~0) with (Zpos p + Zpos p) by lia.
        rewrite !Z.pow_add_r by lia. ring. }
    split; [exact H3|]. split; [exact Hm3|].
    rewrite E3, E2.
    rewrite !Z.div_div by (try lia; apply Z.pow_pos_nonneg; lia).
    f_equal.
    replace (Zpos p~0) with (Zpos p + Zpos p) by lia.
    rewrite !Z.pow_add_r by lia. ring.
  - destruct (shr_1_located N D r Hm H) as (H1 & Hm1 & E1).
    change (2 ^ 1) with 2. rewrite (Z.mul_comm D 2). auto.
Qed.

Lemma shr_m_of_loc (m : Z) (l : location) : shr_m (shr_record_of_loc m l) = m.
Proof. destruct l as [|[| |]]; reflexivity. Qed.

Lemma shr_located (N D e n : Z) (r : shr_record) :
  0 <= n -> 0 <= shr_m r -> located N D r ->
  located N (D * 2 ^ n) (fst (shr r e n))
  /\ snd (shr r e n) = e + n
  /\ shr_m (fst (shr r e n)) = shr_m r / 2 ^ n
  /\ 0 <= shr_m (fst (shr r e n)).
Proof.
  intros Hn Hm H. destruct n as [|p|p]; try lia; cbn [shr fst snd].
  - rewrite Z.mul_1_r, Z.div_1_r, Z.add_0_r. auto.
  - destruct (iter_shr_1_located p N D r Hm H) as (H1 & H2 & H3). auto.
Qed.



Lemma located_div (N D : Z) (r : shr_record) :
  located N D r -> shr_m r = N / D /\ N - shr_m r * D = N mod D.
Proof.
  intros (HD & Hb & _).
  assert (E : shr_m r = N / D).
  { apply Z.div_unique with (N - shr_m r * D); lia. }
  split; [exact E|]. rewrite E. rewrite Z.mod_eq by lia. ring.
Qed.

Lemma rne_located (N D : Z) (r : shr_record) :
  located N D r ->
  round_nearest_even (shr_m r) (loc_of_shr_record r) = F64.div_half_even N D.
Proof.
  intros H. destruct (located_div N D r H) as [Em Er].
  destruct H as (HD & Hb & Hr & Hs).
  unfold F64.div_half_even. rewrite <- Em, <- Er.
  destruct r as [m rb sb]. cbn [shr_m shr_r shr_s loc_of_shr_record] in *.
  destruct (Z.compare_spec (2 * (N - m * D)) D) as [E|E|E];
    destruct rb, sb; cbn [round_nearest_even]; try reflexivity;
    intuition (try lia; try discriminate).
Qed.

Lemma div_half_even_bounds (N D : Z) :
  0 < D -> N / D <= F64.div_half_even N D <= N / D + 1.
Proof.
  intros HD. unfold F64.div_half_even.
  destruct (2 * (N mod D) ?= D); [destruct (Z.even (N / D))| |]; lia.
Qed.

Lemma fexp_fexp64 (e : Z) : fexp 53 1024 e = fexp64 e.
Proof. reflexivity. Qed.

Lemma binary_round_aux_shape (s : bool) (mx ex : Z) (lx : location) (N D : Z) :
  0 <= mx -> located N D (shr_record_of_loc mx lx) ->
  ex <= fexp64 (Zdigits2 mx + ex) ->
  binary_round_aux 53 1024 s mx ex lx
  = round_shape s
      (F64.div_half_even N (D * 2 ^ (fexp64 (Zdigits2 mx + ex) - ex)))
      (fexp64 (Zdigits2 mx + ex))
  /\ N / (D * 2 ^ (fexp64 (Zdigits2 mx + ex) - ex)) < 2 ^ 53
  /\ (-1074 < fexp64 (Zdigits2 mx + ex) ->
      2 ^ 52 <= N / (D * 2 ^ (fexp64 (Zdigits2 mx + ex) - ex))).
Proof.
  intros Hmx Hloc Hn.
  set (ea := fexp64 (Zdigits2 mx + ex)) in *.
  set (n := ea - ex).
  assert (Hn0 : 0 <= n) by (unfold n; lia).
  pose proof (shr_located N D ex n (shr_record_of_loc mx lx) Hn0) as Hshr.
  rewrite shr_m_of_loc in Hshr. specialize (Hshr Hmx Hloc).
  destruct Hshr as (Hloc1 & He1 & Hm1 & Hm1nn).
  unfold binary_round_aux, shr_fexp. change (fexp 53 1024) with fexp64.
  change (1024 - 53) with 971.
  fold ea. fold n.
  destruct (shr (shr_record_of_loc mx lx) ex n) as [mrs1 e1] eqn:Eshr.
  cbn [fst snd] in *. subst e1.
  replace (ex + n) with ea by (unfold n; lia).
  rewrite (rne_located N (D * 2 ^ n) mrs1 Hloc1).
  set (mr := F64.div_half_even N (D * 2 ^ n)).
  destruct (located_div _ _ _ Hloc1) as [Ema _].
  assert (HD : 0 < D * 2 ^ n) by (destruct Hloc1; assumption).
  pose proof (div_half_even_bounds N (D * 2 ^ n) HD) as Hmr. fold mr in Hmr.
  rewrite <- Ema in *. rewrite Hm1 in *.
  (* bounds on the truncated mantissa *)
  assert (Hpow : 0 < 2 ^ n) by (apply Z.pow_pos_nonneg; lia).
  assert (Hhi : mx / 2 ^ n < 2 ^ 53).
  { apply Z.div_lt_upper_bound; [lia|].
    rewrite <- Z.pow_add_r by lia.
    destruct (Z.eq_dec mx 0) as [->|Hne]; [apply Z.pow_pos_nonneg; lia|].
    destruct (Zdigits2_bounds mx ltac:(lia)) as [_ Hlt].
    eapply Z.lt_le_trans; [exact Hlt|].
    apply Z.pow_le_mono_r; [lia|]. unfold n, ea, fexp64. lia. }
  assert (Hlo : -1074 < ea -> 2 ^ 52 <= mx / 2 ^ n).
  { intros Hea.
    assert (Hmxpos : 0 < mx).
    { destruct (Z.eq_dec mx 0) as [E|E]; [|lia].
      exfalso. subst mx. unfold ea, fexp64 in *. simpl Zdigits2 in *. lia. }
    destruct (Zdigits2_bounds mx Hmxpos) as [Hge _].
    assert (En : n = Zdigits2 mx - 53) by (unfold n, ea, fexp64 in *; lia).
    apply Z.div_le_lower_bound; [lia|].
    rewrite <- Z.pow_add_r by lia.
    replace (n + 52) with (Zdigits2 mx - 1) by lia. exact Hge. }
  split; [|split; [exact Hhi | exact Hlo]].
  assert (Hea_min : -1074 <= ea) by (unfold ea, fexp64; lia).
  unfold round_shape.
  destruct (Z.eqb_spec mr 0) as [E0|E0].
  - rewrite E0. cbn [Zdigits2].
    replace (fexp64 (0 + ea) - ea) with (fexp64 ea - ea) by (f_equal; f_equal; lia).
    assert (Hle : fexp64 ea - ea <= 0) by (unfold fexp64; lia).
    destruct (fexp64 ea - ea) as [|p|p] eqn:En'; try lia; reflexivity.
  - assert (Hmrpos : 0 < mr) by lia.
    destruct (Z.ltb_spec mr (2 ^ 53)) as [Hlt|Hge].
    + assert (Hd : Zdigits2 mr <= 53) by (apply Zdigits2_le; lia).
      assert (Hle : fexp64 (Zdigits2 mr + ea) - ea <= 0).
      { unfold fexp64. 
        destruct (Z_lt_le_dec (-1074) ea) as [Hn1|Hn1]; [|lia].
        lia. }
      destruct (fexp64 (Zdigits2 mr + ea) - ea) as [|p|p] eqn:En'; try lia;
        cbn [shr shr_record_of_loc shr_m];
        destruct mr as [|pm|pm]; try lia; reflexivity.
    + assert (Emr : mr = 2 ^ 53) by lia.
      rewrite Emr.
      change (Zdigits2 (2 ^ 53)) with 54.
      replace (fexp64 (54 + ea) - ea) with 1 by (unfold fexp64; lia).
      cbn [shr shr_record_of_loc iter_pos].
      change (shr_m (shr_1 {| shr_m := 2 ^ 53; shr_r := false; shr_s := false |}))
        with (2 ^ 52).
      reflexivity.
Qed.





(** ** Values and their order *)

Lemma pow2_pos (e : Z) : (0 < 2 ^ e)%Q.
Proof. apply Qpower_0_lt. reflexivity. Qed.



Lemma pow2_ge_1 (n : Z) : 0 <= n -> (1 <= 2 ^ n)%Q.
Proof. intros Hn. apply Qpower_1_le; [discriminate | assumption]. Qed.

Lemma pow2_le (a b : Z) : a <= b -> (2 ^ a <= 2 ^ b)%Q.
Proof. intros H. apply Qpower_le_compat_l; [assumption | discriminate]. Qed.

Lemma v_pos (m e : Z) : 0 < m -> (0 < dyadic m e)%Q.
Proof.
  intros Hm. unfold dyadic. apply Qmult_lt_0_compat; [|apply pow2_pos].
  change 0%Q with (inject_Z 0). rewrite <- Zlt_Qlt. exact Hm.
Qed.




Lemma v_le_mono_exp (m e1 e2 : Z) : 0 <= m -> e1 <= e2 -> (dyadic m e1 <= dyadic m e2)%Q.
Proof.
  intros Hm He. unfold dyadic. 
  rewrite !(Qmult_comm (inject_Z m)).
  apply Qmult_le_compat_r; [apply pow2_le; assumption|].
  change 0%Q with (inject_Z 0). rewrite <- Zle_Qle. exact Hm.
Qed.






Lemma canonical_bounds (m e : Z) :
  0 < m -> canonical m e ->
  -1074 <= e /\ m < 2 ^ 53 /\ (-1074 < e -> 2 ^ 52 <= m).
Proof.
  intros Hm Hc. unfold canonical, fexp64 in Hc.
  destruct (Zdigits2_bounds m Hm) as [Hlo Hhi].
  split; [lia|]. split.
  - eapply Z.lt_le_trans; [exact Hhi|]. apply Z.pow_le_mono_r; lia.
  - intros He. eapply Z.le_trans; [|exact Hlo]. apply Z.pow_le_mono_r; lia.
Qed.










(** ** Sizes beyond the largest unit *)







Lemma at_least_weaken (mc ec mc' ec' : Z) (y : spec_float) :
  (dyadic mc' ec' <= dyadic mc ec)%Q -> at_least mc ec y -> at_least mc' ec' y.
Proof.
  intros Hle. destruct y as [s|s| |s m e]; try destruct s; simpl; auto.
  intros [Hb Hv]. split; [exact Hb|]. eapply Qle_trans; eassumption.
Qed.










(** ** Number of chunks *)











(** ** Quartiles *)

Lemma SFcompare_antisym (x y : spec_float) :
  SFcompare y x = option_map CompOpp (SFcompare x y).
Proof.
  destruct x as [sx|sx| |sx mx ex], y as [sy|sy| |sy my ey];
    try destruct sx; try destruct sy; try reflexivity;
    cbn [SFcompare option_map]; f_equal;
    rewrite (Z.compare_antisym ex ey);
    destruct (ex ?= ey); cbn [CompOpp]; try reflexivity.
  - f_equal. exact (eq_sym (Pos.compare_cont_antisym mx my Eq)).
  - exact (eq_sym (Pos.compare_cont_antisym mx my Eq)).
Qed.

Lemma leb_total (x y : F64.float) :
  F64.is_nan x = false -> F64.is_nan y = false ->
  F64.leb x y = false -> F64.leb y x = true.
Proof.
  unfold F64.leb, SFleb. intros Hx Hy. rewrite (SFcompare_antisym x y).
  destruct (SFcompare x y) as [[| |]|] eqn:E; try discriminate;
    try reflexivity.
  destruct x, y; try discriminate; cbn in E;
    repeat match goal with
    | s : bool |- _ => destruct s
    end; discriminate.
Qed.

Lemma insert_sorted_perm (x : F64.float) (l : list F64.float) :
  Permutation (insert_sorted x l) (x :: l).
Proof.
  induction l as [|y l IH]; cbn [insert_sorted]; [reflexivity|].
  destruct (F64.leb x y); [reflexivity|].
  rewrite IH. apply perm_swap.
Qed.

Lemma sort_perm (l : list F64.float) : Permutation (sort l) l.
Proof.
  induction l as [|x l IH]; [reflexivity|].
  cbn [sort fold_right]. fold (sort l).
  rewrite insert_sorted_perm. constructor. exact IH.
Qed.

Lemma insert_sorted_hd (x y : F64.float) (l : list F64.float) :
  F64.leb y x = true ->
  HdRel (fun a b => F64.leb a b = true) y l ->
  HdRel (fun a b => F64.leb a b = true) y (insert_sorted x l).
Proof.
  intros Hyx H. destruct l as [|z l]; cbn [insert_sorted].
  - constructor. exact Hyx.
  - destruct (F64.leb x z); constructor; [exact Hyx|].
    inversion H; assumption.
Qed.

Lemma insert_sorted_ascending (x : F64.float) (l : list F64.float) :
  F64.is_nan x = false -> existsb F64.is_nan l = false ->
  ascending l -> ascending (insert_sorted x l).
Proof.
  unfold ascending. intros Hx.
  induction l as [|y l IH]; intros Hl Hs; cbn [insert_sorted].
  - constructor; constructor.
  - cbn [existsb] in Hl. apply orb_false_iff in Hl. destruct Hl as [Hy Hl].
    inversion Hs as [|? ? Hs' Hhd]; subst.
    destruct (F64.leb x y) eqn:E.
    + constructor; [exact Hs|]. constructor. exact E.
    + constructor; [apply IH; assumption|].
      apply insert_sorted_hd; [|exact Hhd].
      apply leb_total; assumption.
Qed.

Lemma insert_sorted_no_nan (x : F64.float) (l : list F64.float) :
  existsb F64.is_nan (insert_sorted x l) = existsb F64.is_nan (x :: l).
Proof.
  induction l as [|y l IH]; cbn [insert_sorted]; [reflexivity|].
  destruct (F64.leb x y); [reflexivity|].
  cbn [existsb] in *. rewrite IH.
  destruct (F64.is_nan x), (F64.is_nan y); reflexivity.
Qed.

Lemma sort_no_nan (l : list F64.float) :
  existsb F64.is_nan (sort l) = existsb F64.is_nan l.
Proof.
  induction l as [|x l IH]; [reflexivity|].
  cbn [sort fold_right]. fold (sort l).
  rewrite insert_sorted_no_nan. cbn [existsb]. rewrite IH. reflexivity.
Qed.

Lemma sort_ascending (l : list F64.float) :
  existsb F64.is_nan l = false -> ascending (sort l).
Proof.
  induction l as [|x l IH]; intros Hl.
  - constructor.
  - cbn [existsb] in Hl. apply orb_false_iff in Hl. destruct Hl as [Hx Hl].
    cbn [sort fold_right]. fold (sort l).
    apply insert_sorted_ascending; [exact Hx | | apply IH; exact Hl].
    rewrite sort_no_nan. exact Hl.
Qed.

Lemma percentile_sorted (a : list F64.float) (q : Z) :
  a <> [] -> existsb F64.is_nan a = false ->
  percentile a q = Ok (linear_percentile (sort a) q).
Proof.
  intros Hne Hnan. destruct a as [|x l]; [congruence|].
  unfold percentile. rewrite Hnan. unfold linear_percentile, lerp.
  rewrite (Permutation_length (sort_perm (x :: l))). reflexivity.
Qed.

Lemma percentile_nan (a : list F64.float) (q : Z) :
  existsb F64.is_nan a = true -> percentile a q = Ok F64.nan.
Proof.
  intros Hnan. destruct a as [|x l]; [discriminate|].
  unfold percentile. rewrite Hnan. reflexivity.
Qed.

Lemma np_max2_zero_cases (x : F64.float) :
  (F64.ltb F64.zero x = true -> np_max2 F64.zero x = x)
  /\ (F64.leb x F64.zero = true -> np_max2 F64.zero x = F64.zero)
  /\ (F64.is_nan x = true -> np_max2 F64.zero x = x)
  /\ F64.ltb (np_max2 F64.zero x) F64.zero = false.
Proof.
  destruct x as [s|s| |s m e]; try destruct s; repeat split;
    intros; try reflexivity; try discriminate.
Qed.

(** C5: for non-empty data without a NaN and any coefficient [k], let [q1]
    and [q3] be the 25th and 75th percentiles, interpolated linearly in the
    data put in ascending order, and [iqr = q3 - q1].  The bounds are the
    greater of zero and [q1 - k * iqr], and [q3 + k * iqr]: the lower bound
    is [q1 - k * iqr] when that is above zero, zero when it is zero or
    below, a NaN when it is a NaN, and never below zero.  Data that hold a
    NaN give two NaN.  For [list(range(100))] and [k = 1.5] the bounds are
    0.0 and 148.5. *)
Theorem outlier_bounds_spec :
  (forall (num_dat : list F64.float) (k : F64.float),
   num_dat <> [] -> existsb F64.is_nan num_dat = false ->
   exists (arr : list F64.float) (lower_bound : F64.float),
     Permutation arr num_dat /\ ascending arr
     /\ let q1 := linear_percentile arr 25 in
        let q3 := linear_percentile arr 75 in
        let iqr := F64.sub q3 q1 in
        let low := F64.sub q1 (F64.mul k iqr) in
        get_extreme_outlier_bounds num_dat k
        = Ok (lower_bound, F64.add q3 (F64.mul k iqr))
        /\ (F64.ltb F64.zero low = true -> lower_bound = low)
        /\ (F64.leb low F64.zero = true -> lower_bound = F64.zero)
        /\ (F64.is_nan low = true -> lower_bound = F64.nan)
        /\ F64.ltb lower_bound F64.zero = false)
  /\ (forall (num_dat : list F64.float) (k : F64.float),
      existsb F64.is_nan num_dat = true ->
      get_extreme_outlier_bounds num_dat k = Ok (F64.nan, F64.nan))
  /\ get_extreme_outlier_bounds (range_floats 100)
       (F64.of_decimal false 15 (-1))
     = Ok (F64.zero, F64.of_decimal false 1485 (-1)).
Proof.
  split; [|split].
  - intros num_dat k Hne Hnan.
    exists (sort num_dat).
    exists (np_max2 F64.zero
              (F64.sub (linear_percentile (sort num_dat) 25)
                 (F64.mul k
                    (F64.sub (linear_percentile (sort num_dat) 75)
                       (linear_percentile (sort num_dat) 25))))).
    split; [apply sort_perm|]. split; [apply sort_ascending; exact Hnan|].
    cbv zeta.
    destruct (np_max2_zero_cases
                (F64.sub (linear_percentile (sort num_dat) 25)
                   (F64.mul k
                      (F64.sub (linear_percentile (sort num_dat) 75)
                         (linear_percentile (sort num_dat) 25)))))
      as (H1 & H2 & H3 & H4).
    split; [|split; [exact H1|split; [exact H2|split; [|exact H4]]]].
    + unfold get_extreme_outlier_bounds.
      rewrite !percentile_sorted by assumption. reflexivity.
    + intros Hn. rewrite (H3 Hn).
      destruct (F64.sub _ _); try discriminate. reflexivity.
  - intros num_dat k Hnan. unfold get_extreme_outlier_bounds.
    rewrite !percentile_nan by assumption. cbn [bind].
    destruct k as [s|s| |s m e]; reflexivity.
  - vm_compute. reflexivity.
Qed.

Lemma outlier_bounds_spec_witness :
  (exists (arr : list F64.float) (lower_bound : F64.float),
     Permutation arr [F64.of_Z 10; F64.of_Z 30; F64.of_Z 20]
     /\ ascending arr
     /\ let q1 := linear_percentile arr 25 in
        let q3 := linear_percentile arr 75 in
        let iqr := F64.sub q3 q1 in
        let low := F64.sub q1 (F64.mul (F64.of_Z 0) iqr) in
        get_extreme_outlier_bounds [F64.of_Z 10; F64.of_Z 30; F64.of_Z 20]
          (F64.of_Z 0)
        = Ok (lower_bound, F64.add q3 (F64.mul (F64.of_Z 0) iqr))
        /\ (F64.ltb F64.zero low = true -> lower_bound = low)
        /\ (F64.leb low F64.zero = true -> lower_bound = F64.zero)
        /\ (F64.is_nan low = true -> lower_bound = F64.nan)
        /\ F64.ltb lower_bound F64.zero = false)
  /\ get_extreme_outlier_bounds [F64.of_Z 10; F64.nan] (F64.of_Z 1)
     = Ok (F64.nan, F64.nan).
Proof.
  split.
  - apply (proj1 outlier_bounds_spec).
    + discriminate.
    + reflexivity.
  - apply (proj1 (proj2 outlier_bounds_spec)). reflexivity.
Defined.

(** C6: for non-empty data without a NaN, [interquartile_range] is the 75th
    percentile minus the 25th, each interpolated linearly between
    neighbours of the data put in ascending order; data that hold a NaN
    give a NaN, and no data raise [IndexError].  For [list(range(100))] the
    quartiles are 24.75 and 74.25 and the range is 49.5. *)
Theorem interquartile_range_spec :
  (forall num_dat : list F64.float,
   num_dat <> [] -> existsb F64.is_nan num_dat = false ->
   exists arr : list F64.float,
     Permutation arr num_dat /\ ascending arr
     /\ interquartile_range num_dat
        = Ok (F64.sub (linear_percentile arr 75)
                (linear_percentile arr 25)))
  /\ (forall num_dat : list F64.float,
      existsb F64.is_nan num_dat = true ->
      interquartile_range num_dat = Ok F64.nan)
  /\ interquartile_range [] = Raise IndexError
  /\ percentile (range_floats 100) 25 = Ok (F64.of_decimal false 2475 (-2))
  /\ percentile (range_floats 100) 75 = Ok (F64.of_decimal false 7425 (-2))
  /\ interquartile_range (range_floats 100)
     = Ok (F64.of_decimal false 495 (-1)).
Proof.
  split; [|split; [|split; [|repeat split; vm_compute; reflexivity]]].
  - intros num_dat Hne Hnan. exists (sort num_dat).
    split; [apply sort_perm|]. split; [apply sort_ascending; exact Hnan|].
    unfold interquartile_range.
    rewrite !percentile_sorted by assumption. reflexivity.
  - intros num_dat Hnan. unfold interquartile_range.
    rewrite !percentile_nan by assumption. reflexivity.
  - reflexivity.
Qed.

Lemma interquartile_range_spec_witness :
  (exists arr : list F64.float,
     Permutation arr [F64.of_Z 40; F64.of_Z 10; F64.of_Z 30; F64.of_Z 20;
                      F64.of_Z 50]
     /\ ascending arr
     /\ interquartile_range [F64.of_Z 40; F64.of_Z 10; F64.of_Z 30;
                             F64.of_Z 20; F64.of_Z 50]
        = Ok (F64.sub (linear_percentile arr 75) (linear_percentile arr 25)))
  /\ interquartile_range [F64.nan; F64.of_Z 10] = Ok F64.nan.
Proof.
  split.
  - apply (proj1 interquartile_range_spec).
    + discriminate.
    + reflexivity.
  - apply (proj1 (proj2 interquartile_range_spec)). reflexivity.
Defined.

(** ** Dates of the calendar *)

Lemma ord_ok_cycle_computed : ord_ok_upto 146097 = (146098, true).
Proof. vm_compute. reflexivity. Qed.

Lemma ord_ok_upto_sound (k : N) :
  fst (ord_ok_upto k) = 1 + Z.of_N k
  /\ (snd (ord_ok_upto k) = true ->
      forall n, 1 <= n < 1 + Z.of_N k -> ord_ok n = true).
Proof.
  unfold ord_ok_upto.
  induction k as [|k IH] using N.peano_ind.
  - cbn. split; [reflexivity|]. intros _ n Hn. lia.
  - rewrite N.iter_succ.
    destruct (N.iter k _ (1, true)) as [n0 b0].
    cbn [fst snd] in *. destruct IH as [E IH]. subst n0.
    split; [lia|].
    intros Hb n Hn. apply andb_true_iff in Hb. destruct Hb as [Hb0 Hok].
    destruct (Z.eq_dec n (1 + Z.of_N k)) as [->|Hne]; [exact Hok|].
    apply IH; [exact Hb0 | lia].
Qed.

Lemma ord_ok_cycle (n : Z) : 1 <= n <= 146097 -> ord_ok n = true.
Proof.
  intros Hn.
  destruct (ord_ok_upto_sound 146097) as [_ H].
  rewrite ord_ok_cycle_computed in H. apply H; [reflexivity|].
  change (Z.of_N 146097) with 146097. lia.
Qed.

Lemma is_leap_period (y k : Z) :
  Calendar.is_leap (y + 400 * k) = Calendar.is_leap y.
Proof.
  unfold Calendar.is_leap.
  replace ((y + 400 * k) mod 4) with (y mod 4)
    by (replace (y + 400 * k) with (y + 100 * k * 4) by ring;
        symmetry; apply Z_mod_plus_full).
  replace ((y + 400 * k) mod 100) with (y mod 100)
    by (replace (y + 400 * k) with (y + 4 * k * 100) by ring;
        symmetry; apply Z_mod_plus_full).
  replace ((y + 400 * k) mod 400) with (y mod 400)
    by (replace (y + 400 * k) with (y + k * 400) by ring;
        symmetry; apply Z_mod_plus_full).
  reflexivity.
Qed.

Lemma days_before_year_period (y k : Z) :
  Calendar.days_before_year (y + 400 * k)
  = Calendar.days_before_year y + 146097 * k.
Proof.
  unfold Calendar.days_before_year.
  replace (y + 400 * k - 1) with (y - 1 + 400 * k) by ring.
  replace ((y - 1 + 400 * k) / 4) with ((y - 1) / 4 + 100 * k)
    by (replace (y - 1 + 400 * k) with (y - 1 + 100 * k * 4) by ring;
        symmetry; apply Z_div_plus_full; discriminate).
  replace ((y - 1 + 400 * k) / 100) with ((y - 1) / 100 + 4 * k)
    by (replace (y - 1 + 400 * k) with (y - 1 + 4 * k * 100) by ring;
        symmetry; apply Z_div_plus_full; discriminate).
  replace ((y - 1 + 400 * k) / 400) with ((y - 1) / 400 + k)
    by (replace (y - 1 + 400 * k) with (y - 1 + k * 400) by ring;
        symmetry; apply Z_div_plus_full; discriminate).
  ring.
Qed.

Lemma ymd2ord_period (y m d k : Z) :
  Calendar.ymd2ord (y + 400 * k) m d = Calendar.ymd2ord y m d + 146097 * k.
Proof.
  unfold Calendar.ymd2ord, Calendar.days_before_month.
  rewrite days_before_year_period, is_leap_period. lia.
Qed.

Lemma days_in_month_period (y m k : Z) :
  Calendar.days_in_month (y + 400 * k) m = Calendar.days_in_month y m.
Proof. unfold Calendar.days_in_month. rewrite is_leap_period. reflexivity. Qed.

Lemma ord2ymd_period (n k : Z) :
  Calendar.ord2ymd (n + 146097 * k)
  = let '(y, m, d) := Calendar.ord2ymd n in (y + 400 * k, m, d).
Proof.
  unfold Calendar.ord2ymd.
  replace (n + 146097 * k - 1) with (n - 1 + k * 146097) by ring.
  rewrite Z_div_plus_full by discriminate. rewrite Z_mod_plus_full.
  set (r := (n - 1) mod 146097).
  set (q := (n - 1) / 146097).
  cbv zeta.
  replace ((q + k) * 400 + 1 + r / 36524 * 100 + r mod 36524 / 1461 * 4
           + r mod 36524 mod 1461 / 365)
    with (q * 400 + 1 + r / 36524 * 100 + r mod 36524 / 1461 * 4
           + r mod 36524 mod 1461 / 365 + 400 * k) by lia.
  destruct ((r mod 36524 mod 1461 / 365 =? 4) || (r / 36524 =? 4));
    [f_equal; f_equal; lia|].
  destruct (_ <? _); reflexivity.
Qed.

Lemma ord2ymd_inverse (n : Z) :
  let '(y, m, d) := Calendar.ord2ymd n in
  Calendar.ymd2ord y m d = n
  /\ 1 <= m <= 12 /\ 1 <= d <= Calendar.days_in_month y m.
Proof.
  set (k := (n - 1) / 146097).
  set (r := (n - 1) mod 146097 + 1).
  assert (Hr : 1 <= r <= 146097)
    by (unfold r; Z.to_euclidean_division_equations; lia).
  assert (En : n = r + 146097 * k)
    by (unfold r, k; Z.to_euclidean_division_equations; lia).
  pose proof (ord_ok_cycle r Hr) as Hok.
  rewrite En, ord2ymd_period. unfold ord_ok in Hok.
  destruct (Calendar.ord2ymd r) as [[y m] d].
  rewrite ymd2ord_period, days_in_month_period.
  repeat (apply andb_true_iff in Hok; destruct Hok as [Hok ?]).
  apply Z.eqb_eq in Hok.
  repeat match goal with
  | H : (_ <=? _) = true |- _ => apply Z.leb_le in H
  end.
  lia.
Qed.

Ltac vm_nat :=
  repeat match goal with
  | |- context [Z.to_nat ?c] =>
    let r := eval vm_compute in (Z.to_nat c) in
    change (Z.to_nat c) with r
  end.

Lemma days_before_year_succ (y : Z) :
  Calendar.days_before_year (y + 1)
  = Calendar.days_before_year y + 365
    + (if Calendar.is_leap y then 1 else 0).
Proof.
  unfold Calendar.days_before_year, Calendar.is_leap.
  replace (y + 1 - 1) with y by ring.
  destruct (Z.eqb_spec (y mod 4) 0); destruct (Z.eqb_spec (y mod 100) 0);
    destruct (Z.eqb_spec (y mod 400) 0); cbn [andb orb negb];
    Z.to_euclidean_division_equations; lia.
Qed.

Lemma days_before_year_mono (y1 y2 : Z) :
  y1 <= y2 -> Calendar.days_before_year y1 <= Calendar.days_before_year y2.
Proof.
  intros H. unfold Calendar.days_before_year.
  Z.to_euclidean_division_equations; lia.
Qed.

Lemma day_of_year_bounds (y m d : Z) :
  1 <= m <= 12 -> 1 <= d <= Calendar.days_in_month y m ->
  1 <= Calendar.days_before_month y m + d
    <= 365 + (if Calendar.is_leap y then 1 else 0).
Proof.
  intros Hm. unfold Calendar.days_before_month, Calendar.days_in_month.
  assert (Hc : m = 1 \/ m = 2 \/ m = 3 \/ m = 4 \/ m = 5 \/ m = 6 \/ m = 7
               \/ m = 8 \/ m = 9 \/ m = 10 \/ m = 11 \/ m = 12) by lia.
  destruct (Calendar.is_leap y);
    repeat (destruct Hc as [->|Hc]; [vm_nat; cbn -[Z.add]; lia|]);
    subst; vm_nat; cbn -[Z.add]; lia.
Qed.

Lemma ord2ymd_year_range (n : Z) :
  1 <= n <= 3652059 ->
  let '(y, _, _) := Calendar.ord2ymd n in 1 <= y <= 9999.
Proof.
  intros Hn. pose proof (ord2ymd_inverse n) as H.
  destruct (Calendar.ord2ymd n) as [[y m] d].
  destruct H as (E & Hm & Hd).
  pose proof (day_of_year_bounds y m d Hm Hd) as Hdoy.
  unfold Calendar.ymd2ord in E.
  pose proof (days_before_year_succ y) as Hs.
  split.
  - destruct (Z_le_gt_dec 1 y) as [|Hy]; [assumption|exfalso].
    pose proof (days_before_year_mono (y + 1) 1 ltac:(lia)) as Hmono.
    change (Calendar.days_before_year 1) with 0 in Hmono. lia.
  - destruct (Z_le_gt_dec y 9999) as [|Hy]; [assumption|exfalso].
    pose proof (days_before_year_mono 10000 y ltac:(lia)) as Hmono.
    change (Calendar.days_before_year 10000) with 3652059 in Hmono. lia.
Qed.

Lemma civil_of_unix_spec (secs us : Z) :
  -62135596800 <= secs <= 253402300799 ->
  well_formed (civil_of_unix secs us)
  /\ microsecond (civil_of_unix secs us) = us
  /\ datetime_us (civil_of_unix secs us)
     = datetime_us unix_epoch + secs * 1000000 + us.
Proof.
  intros Hs. unfold civil_of_unix, well_formed, datetime_us.
  change Calendar.unix_epoch_ord with 719163.
  set (days := secs / 86400). set (sod := secs mod 86400).
  assert (Hdays : -719162 <= days <= 2932896)
    by (unfold days; Z.to_euclidean_division_equations; lia).
  assert (Hsod : 0 <= sod < 86400)
    by (unfold sod; Z.to_euclidean_division_equations; lia).
  assert (Esecs : secs = days * 86400 + sod)
    by (unfold days, sod; Z.to_euclidean_division_equations; lia).
  pose proof (ord2ymd_inverse (719163 + days)) as Hinv.
  pose proof (ord2ymd_year_range (719163 + days) ltac:(lia)) as Hyr.
  destruct (Calendar.ord2ymd (719163 + days)) as [[y m] d].
  destruct Hinv as (E & Hm & Hd).
  cbn [year month day hour minute second microsecond unix_epoch].
  rewrite E.
  change (Calendar.ymd2ord 1970 1 1) with 719163.
  repeat split; try lia; try (Z.to_euclidean_division_equations; lia).
Qed.

Lemma utcfromtimestamp_spec (t : F64.float) :
  F64.is_finite t = true ->
  -62135596800 < F64.trunc t < 253402300799 ->
  exists d,
    utcfromtimestamp t = Ok d
    /\ well_formed d
    /\ datetime_us d = datetime_us unix_epoch + timestamp_micros t.
Proof.
  intros Hfin Hr. unfold utcfromtimestamp, timestamp_micros.
  set (secs := F64.trunc t) in *.
  set (us := round_half_even
               (F64.mul (F64.sub t (F64.of_Z secs)) (F64.of_Z 1000000))).
  assert (E : forall s u, -62135596800 <= s <= 253402300799 ->
              s * 1000000 + u = secs * 1000000 + us ->
              exists d,
                (if (- 2 ^ 63 <=? s) && (s <? 2 ^ 63)
                 then datetime_of_unix s u else Raise OverflowError) = Ok d
                /\ well_formed d
                /\ datetime_us d
                   = datetime_us unix_epoch + (secs * 1000000 + us)).
  { intros s u Hs Hsum.
    assert (Hb : (- 2 ^ 63 <=? s) && (s <? 2 ^ 63) = true).
    { apply andb_true_iff. split; [apply Z.leb_le | apply Z.ltb_lt];
        change (2 ^ 63) with 9223372036854775808; lia. }
    rewrite Hb. unfold datetime_of_unix.
    destruct (civil_of_unix_spec s u Hs) as (Hwf & _ & Hus).
    assert (Hy : (1 <=? year (civil_of_unix s u))
                 && (year (civil_of_unix s u) <=? 9999) = true).
    { destruct Hwf as (Hy & _).
      apply andb_true_iff. split; apply Z.leb_le; lia. }
    rewrite Hy. eexists. split; [reflexivity|]. split; [exact Hwf|]. lia. }
  destruct t as [s|s| |s m e]; try discriminate;
    (destruct (1000000 <=? us); [apply E; lia|];
     destruct (us <? 0); apply E; lia).
Qed.

(** ** Whole numbers of seconds *)

Lemma Zdigits2_shift (m k : Z) :
  0 < m -> 0 <= k -> Zdigits2 (m * 2 ^ k) = Zdigits2 m + k.
Proof.
  intros Hm Hk.
  destruct (Zdigits2_bounds m Hm) as [Hlo Hhi].
  assert (Hp : 0 < 2 ^ k) by (apply Z.pow_pos_nonneg; lia).
  assert (Hd : 1 <= Zdigits2 m) by (destruct m; simpl in *; lia).
  apply Z.le_antisymm.
  - apply Zdigits2_le; try lia. rewrite Z.pow_add_r by lia.
    apply Z.mul_lt_mono_pos_r; assumption.
  - apply Zdigits2_ge; try lia.
    replace (Zdigits2 m + k - 1) with (Zdigits2 m - 1 + k) by lia.
    rewrite Z.pow_add_r by lia.
    apply Z.mul_le_mono_nonneg_r; lia.
Qed.

Lemma div_half_even_exact (q b : Z) :
  0 < b -> F64.div_half_even (q * b) b = q.
Proof.
  intros Hb. unfold F64.div_half_even.
  rewrite Z.div_mul by lia. rewrite Z.mod_mul by lia.
  cbn [Z.mul]. destruct (Z.compare_spec 0 b); lia.
Qed.

Lemma located_exact (m : Z) :
  located m 1 (shr_record_of_loc m loc_Exact).
Proof.
  unfold located. cbn [shr_record_of_loc shr_m shr_r shr_s].
  repeat split; intros; try lia; try discriminate.
Qed.

(** Rounding a value that a canonical mantissa and exponent hold gives
    them back. *)
Lemma round_aux_exact (s : bool) (mx ex Nc Ec : Z) :
  0 < Nc -> canonical Nc Ec -> Ec <= 971 ->
  ex <= Ec -> mx = Nc * 2 ^ (Ec - ex) ->
  binary_round_aux 53 1024 s mx ex loc_Exact
  = S754_finite s (Z.to_pos Nc) Ec.
Proof.
  intros HN Hc HE Hex Emx.
  assert (Hp : 0 < 2 ^ (Ec - ex)) by (apply Z.pow_pos_nonneg; lia).
  assert (Hmx : 0 < mx) by (subst mx; apply Z.mul_pos_pos; assumption).
  assert (Hd : Zdigits2 mx + ex = Zdigits2 Nc + Ec).
  { subst mx. rewrite Zdigits2_shift by lia. lia. }
  assert (Hea : fexp64 (Zdigits2 mx + ex) = Ec) by (rewrite Hd; exact Hc).
  destruct (binary_round_aux_shape s mx ex loc_Exact mx 1 ltac:(lia)
              (located_exact mx) ltac:(lia)) as (Hshape & _ & _).
  rewrite Hshape, Hea. rewrite Z.mul_1_l.
  rewrite Emx, div_half_even_exact by assumption.
  destruct (canonical_bounds Nc Ec HN Hc) as (_ & Hhi & _).
  unfold round_shape.
  destruct (Z.eqb_spec Nc 0); [lia|].
  destruct (Z.ltb_spec Nc (2 ^ 53)); [|lia].
  destruct (Z.leb_spec Ec 971); [reflexivity | lia].
Qed.

Lemma iter_xO (m d : positive) :
  Zpos (Pos.iter xO m d) = Zpos m * 2 ^ Zpos d.
Proof.
  induction d as [|d IH] using Pos.peano_ind.
  - cbn. lia.
  - rewrite Pos.iter_succ, Pos2Z.inj_succ, Z.pow_succ_r by lia.
    rewrite Pos2Z.inj_xO, IH. ring.
Qed.

Lemma binary_round_exact (s : bool) (m : positive) (e Nc Ec : Z) :
  0 < Nc -> canonical Nc Ec -> Ec <= 971 ->
  (e <= Ec /\ Zpos m = Nc * 2 ^ (Ec - e))
  \/ (Ec <= e /\ Nc = Zpos m * 2 ^ (e - Ec)) ->
  binary_round 53 1024 s m e = S754_finite s (Z.to_pos Nc) Ec.
Proof.
  intros HN Hc HE Hval. unfold binary_round.
  change (fexp 53 1024) with fexp64.
  change (Zpos (digits2_pos m)) with (Zdigits2 (Zpos m)).
  assert (Hd : Zdigits2 (Zpos m) + e = Zdigits2 Nc + Ec).
  { destruct Hval as [[He Em] | [He En]].
    - rewrite Em, Zdigits2_shift by lia. lia.
    - rewrite En, Zdigits2_shift by lia. lia. }
  rewrite Hd, Hc. unfold shl_align.
  destruct (Ec - e) as [|p|p] eqn:Ediff.
  - apply round_aux_exact; try assumption; try lia.
    destruct Hval as [[He Em] | [He En]].
    + rewrite Em. f_equal. f_equal. lia.
    + rewrite En. replace (e - Ec) with 0 by lia.
      replace (Ec - e) with 0 by lia. cbn. lia.
  - apply round_aux_exact; try assumption; try lia.
    destruct Hval as [[He Em] | [He En]]; [|lia].
    rewrite Em. f_equal. f_equal. lia.
  - apply round_aux_exact; try assumption; try lia.
    rewrite Z.sub_diag, Z.pow_0_r, Z.mul_1_r. rewrite iter_xO.
    destruct Hval as [[He Em] | [He En]]; [lia|].
    rewrite En. f_equal. f_equal. lia.
Qed.

Lemma int_canonical (n : Z) :
  0 < n < 2 ^ 53 ->
  0 < int_mantissa n /\ canonical (int_mantissa n) (int_exponent n)
  /\ int_exponent n <= 0 /\ -52 <= int_exponent n
  /\ n = int_mantissa n / 2 ^ (- int_exponent n)
  /\ int_mantissa n = n * 2 ^ (- int_exponent n).
Proof.
  intros Hn. unfold int_mantissa, int_exponent.
  assert (Hd : 1 <= Zdigits2 n <= 53).
  { split; [destruct n; simpl in *; lia | apply Zdigits2_le; lia]. }
  assert (Hp : 0 < 2 ^ (53 - Zdigits2 n)) by (apply Z.pow_pos_nonneg; lia).
  replace (- (Zdigits2 n - 53)) with (53 - Zdigits2 n) by lia.
  split; [apply Z.mul_pos_pos; lia|].
  split.
  - unfold canonical. rewrite Zdigits2_shift by lia. unfold fexp64. lia.
  - repeat split; try lia. rewrite Z.div_mul by lia. reflexivity.
Qed.

Lemma of_Z_exact (n : Z) :
  0 < n < 2 ^ 53 ->
  F64.of_Z n = S754_finite false (Z.to_pos (int_mantissa n)) (int_exponent n).
Proof.
  intros Hn. destruct (int_canonical n Hn) as (Hm & Hc & He & _ & _ & Em).
  unfold F64.of_Z. destruct n as [|p|p]; try lia.
  cbn [binary_normalize].
  apply binary_round_exact; try assumption; try lia.
  right. split; [lia|]. rewrite Em.
  replace (0 - int_exponent (Zpos p)) with (- int_exponent (Zpos p)) by lia.
  reflexivity.
Qed.

Lemma shl_align_fst (m : positive) (e ez : Z) :
  ez <= e -> Zpos (fst (shl_align m e ez)) = Zpos m * 2 ^ (e - ez).
Proof.
  intros He. unfold shl_align.
  destruct (ez - e) as [|p|p] eqn:Ed; try lia; cbn [fst].
  - replace (e - ez) with 0 by lia. lia.
  - rewrite iter_xO. f_equal. f_equal. lia.
Qed.

Lemma add_int_exact (a b : Z) :
  0 < a -> 0 < b -> a + b < 2 ^ 53 ->
  F64.add (F64.of_Z a) (F64.of_Z b) = F64.of_Z (a + b).
Proof.
  intros Ha Hb Hab.
  rewrite (of_Z_exact a), (of_Z_exact b), (of_Z_exact (a + b)) by lia.
  destruct (int_canonical a ltac:(lia)) as (Hma & _ & Hea & _ & _ & Ema).
  destruct (int_canonical b ltac:(lia)) as (Hmb & _ & Heb & _ & _ & Emb).
  destruct (int_canonical (a + b) ltac:(lia))
    as (Hmc & Hcc & Hec & _ & _ & Emc).
  set (ma := int_mantissa a) in *. set (ea := int_exponent a) in *.
  set (mb := int_mantissa b) in *. set (eb := int_exponent b) in *.
  set (mc := int_mantissa (a + b)) in *.
  set (ec := int_exponent (a + b)) in *.
  unfold F64.add. cbn [SFadd cond_Zopp].
  set (ez := Z.min ea eb).
  rewrite !shl_align_fst by (unfold ez; lia).
  rewrite !Z2Pos.id by assumption.
  assert (Hsum : ma * 2 ^ (ea - ez) + mb * 2 ^ (eb - ez)
                 = (a + b) * 2 ^ (- ez)).
  { rewrite Ema, Emb. rewrite <- !Z.mul_assoc.
    rewrite <- !Z.pow_add_r by (unfold ez; lia).
    replace (- ea + (ea - ez)) with (- ez) by lia.
    replace (- eb + (eb - ez)) with (- ez) by lia. ring. }
  rewrite Hsum.
  assert (Hpos : 0 < (a + b) * 2 ^ (- ez)).
  { apply Z.mul_pos_pos; [lia | apply Z.pow_pos_nonneg; unfold ez; lia]. }
  destruct ((a + b) * 2 ^ (- ez)) as [|p|p] eqn:Ep; try lia.
  cbn [binary_normalize].
  apply binary_round_exact; try assumption; try lia.
  destruct (Z_le_gt_dec ez ec) as [Hle|Hgt].
  - left. split; [exact Hle|]. rewrite <- Ep, Emc.
    rewrite <- Z.mul_assoc, <- Z.pow_add_r by (unfold ez in *; lia).
    f_equal. f_equal. lia.
  - right. split; [lia|]. rewrite <- Ep, Emc.
    rewrite <- Z.mul_assoc, <- Z.pow_add_r by (unfold ez in *; lia).
    f_equal. f_equal. lia.
Qed.

Lemma trunc_of_Z (n : Z) : 0 < n < 2 ^ 53 -> F64.trunc (F64.of_Z n) = n.
Proof.
  intros Hn. rewrite of_Z_exact by assumption.
  destruct (int_canonical n Hn) as (Hm & _ & He & _ & En & _).
  unfold F64.trunc. rewrite Z2Pos.id by assumption.
  destruct (int_exponent n) as [|p|p] eqn:E; try lia.
  - rewrite Z.pow_0_r, Z.div_1_r in En. rewrite Z.pow_0_r. lia.
  - rewrite Pos2Z.inj_pow. cbn [Z.opp] in En. lia.
Qed.

Lemma sub_self (s : bool) (m : positive) (e : Z) :
  F64.sub (S754_finite s m e) (S754_finite s m e) = S754_zero false.
Proof.
  unfold F64.sub. cbn [SFsub]. rewrite Z.min_id.
  unfold shl_align. rewrite Z.sub_diag. cbn [fst]. reflexivity.
Qed.

Lemma timestamp_micros_int (n : Z) :
  0 < n < 2 ^ 53 -> timestamp_micros (F64.of_Z n) = n * 1000000.
Proof.
  intros Hn. unfold timestamp_micros. rewrite trunc_of_Z by assumption.
  rewrite (of_Z_exact n Hn), sub_self.
  change (round_half_even (F64.mul (S754_zero false) (F64.of_Z 1000000)))
    with 0.
  lia.
Qed.

(** ** GPS time *)

(** C8: [gps_time_to_utc] adds to the GPS seconds the 315964800 seconds
    that lie between 1970-01-01 and 1980-01-06, whole days of 86400 seconds
    with no leap second, and reads the sum [t] as a Unix timestamp.  When
    [t] is finite and within the years 1 to 9999, the result is a date and
    time of the calendar that lies, on the scale of microseconds without
    leap seconds, [t] seconds after the Unix epoch, that is [t - 315964800]
    seconds after the GPS epoch, the fraction rounded to a microsecond; for
    a whole number [n] of seconds it lies [n] seconds after the GPS epoch
    to the microsecond.  A NaN raises [ValueError] and an infinity
    [OverflowError]; 1271398985.7822514 gives
    2020-04-20 06:23:05.782251. *)
Theorem gps_time_to_utc_spec :
  (forall gps_time : F64.float,
   gps_time_to_utc gps_time
   = utcfromtimestamp (F64.add gps_time (F64.of_Z 315964800)))
  /\ datetime_us gps_epoch - datetime_us unix_epoch = 315964800 * 1000000
  /\ (Calendar.ymd2ord 1980 1 6 - Calendar.ymd2ord 1970 1 1) * 86400
     = 315964800
  /\ (forall gps_time : F64.float,
      let t := F64.add gps_time (F64.of_Z 315964800) in
      F64.is_finite t = true ->
      -62135596800 < F64.trunc t < 253402300799 ->
      exists d,
        gps_time_to_utc gps_time = Ok d
        /\ well_formed d
        /\ datetime_us d
           = datetime_us gps_epoch
             + (timestamp_micros t - 315964800 * 1000000))
  /\ (forall n : Z,
      0 <= n < 253086335999 ->
      exists d,
        gps_time_to_utc (F64.of_Z n) = Ok d
        /\ well_formed d
        /\ microsecond d = 0
        /\ datetime_us d = datetime_us gps_epoch + n * 1000000)
  /\ gps_time_to_utc F64.nan = Raise ValueError
  /\ gps_time_to_utc F64.inf = Raise OverflowError
  /\ gps_time_to_utc (F64.of_decimal false 12713989857822514 (-7))
     = Ok (mk_datetime 2020 4 20 6 23 5 782251).
Proof.
  assert (Hoff : total_seconds_between gps_epoch unix_epoch
                 = F64.of_Z 315964800) by (vm_compute; reflexivity).
  assert (Hgen : forall gps_time : F64.float,
      let t := F64.add gps_time (F64.of_Z 315964800) in
      F64.is_finite t = true ->
      -62135596800 < F64.trunc t < 253402300799 ->
      exists d,
        gps_time_to_utc gps_time = Ok d
        /\ well_formed d
        /\ datetime_us d
           = datetime_us gps_epoch
             + (timestamp_micros t - 315964800 * 1000000)).
  { intros g t Hfin Hr. unfold gps_time_to_utc. rewrite Hoff. fold t.
    destruct (utcfromtimestamp_spec t Hfin Hr) as (d & Hd & Hwf & Hus).
    exists d. split; [exact Hd|]. split; [exact Hwf|].
    rewrite Hus.
    change (datetime_us gps_epoch) with 62451561600000000.
    change (datetime_us unix_epoch) with 62135596800000000. lia. }
  split; [intros g; unfold gps_time_to_utc; rewrite Hoff; reflexivity|].
  split; [reflexivity|]. split; [reflexivity|]. split; [exact Hgen|].
  split; [|split; [reflexivity | split; [reflexivity|]]].
  - intros n Hn.
    assert (Ht : F64.add (F64.of_Z n) (F64.of_Z 315964800)
                 = F64.of_Z (n + 315964800)).
    { destruct (Z.eq_dec n 0) as [->|Hne]; [reflexivity|].
      apply add_int_exact; lia. }
    assert (Hb : 0 < n + 315964800 < 2 ^ 53)
      by (change (2 ^ 53) with 9007199254740992; lia).
    destruct (Hgen (F64.of_Z n)) as (d & Hd & Hwf & Hus).
    + rewrite Ht, (of_Z_exact _ Hb). reflexivity.
    + rewrite Ht, trunc_of_Z by exact Hb. lia.
    + exists d. split; [exact Hd|]. split; [exact Hwf|].
      rewrite Ht, timestamp_micros_int in Hus by exact Hb.
      split; [|lia].
      unfold gps_time_to_utc in Hd. rewrite Hoff, Ht in Hd.
      unfold utcfromtimestamp in Hd.
      rewrite trunc_of_Z in Hd by exact Hb.
      rewrite (of_Z_exact _ Hb) in Hd. rewrite sub_self in Hd.
      change (round_half_even
                (F64.mul (S754_zero false) (F64.of_Z 1000000)))
        with 0 in Hd.
      cbn [Z.leb Z.ltb Z.compare] in Hd.
      destruct ((- 2 ^ 63 <=? n + 315964800) && (n + 315964800 <? 2 ^ 63));
        [|discriminate].
      unfold datetime_of_unix in Hd.
      destruct (_ && _) in Hd; [|discriminate].
      injection Hd as <-.
      destruct (civil_of_unix_spec (n + 315964800) 0 ltac:(lia))
        as (_ & Hmu & _).
      exact Hmu.
  - vm_compute. reflexivity.
Qed.

Lemma gps_time_to_utc_spec_witness :
  (exists d,
     gps_time_to_utc (F64.of_decimal false 12713989857822514 (-7)) = Ok d
     /\ well_formed d
     /\ datetime_us d
        = datetime_us gps_epoch
          + (timestamp_micros
               (F64.add (F64.of_decimal false 12713989857822514 (-7))
                  (F64.of_Z 315964800))
             - 315964800 * 1000000))
  /\ (exists d,
        gps_time_to_utc (F64.of_Z 86400) = Ok d
        /\ well_formed d
        /\ microsecond d = 0
        /\ datetime_us d = datetime_us gps_epoch + 86400 * 1000000).
Proof.
  destruct gps_time_to_utc_spec as (_ & _ & _ & Hfloat & Hint & _).
  split.
  - apply (Hfloat (F64.of_decimal false 12713989857822514 (-7))).
    + reflexivity.
    + vm_compute. split; reflexivity.
  - apply (Hint 86400). lia.
Defined.

(** ** Closest date *)

Lemma min_from_least {A : Type} (key : A -> result Z) (l : list A) :
  forall (best : A) (kbest : Z),
  key best = Ok kbest ->
  (forall x, In x l -> exists k, key x = Ok k) ->
  exists c kc,
    min_from key best kbest l = Ok c
    /\ (c = best \/ In c l)
    /\ key c = Ok kc
    /\ kc <= kbest
    /\ (forall x k, In x l -> key x = Ok k -> kc <= k).
Proof.
  induction l as [|x l IH]; intros best kbest Hbest Hall.
  - exists best, kbest. simpl. repeat split; auto; try lia.
    all: try (intros x k []).
  - destruct (Hall x (or_introl eq_refl)) as [k Hk].
    assert (Hall' : forall y, In y l -> exists k, key y = Ok k)
      by (intros y Hy; apply Hall; right; exact Hy).
    simpl. rewrite Hk. cbn [bind].
    destruct (k <? kbest) eqn:E.
    + apply Z.ltb_lt in E.
      destruct (IH x k Hk Hall') as (c & kc & Hm & Hin & Hc & Hle & Hleast).
      exists c, kc. repeat split; auto.
      * destruct Hin as [-> | Hin]; [right; left; reflexivity | right; right; exact Hin].
      * lia.
      * intros y ky [<- | Hy] Hky; [rewrite Hk in Hky; injection Hky as <-; lia|].
        eapply Hleast; eauto.
    + apply Z.ltb_ge in E.
      destruct (IH best kbest Hbest Hall') as (c & kc & Hm & Hin & Hc & Hle & Hleast).
      exists c, kc. repeat split; auto.
      * destruct Hin as [-> | Hin]; [left; reflexivity | right; right; exact Hin].
      * intros y ky [<- | Hy] Hky; [rewrite Hk in Hky; injection Hky as <-; lia|].
        eapply Hleast; eauto.
Qed.

Lemma py_min_least {A : Type} (key : A -> result Z) (l : list A) :
  l <> [] ->
  (forall x, In x l -> exists k, key x = Ok k) ->
  exists c kc,
    py_min key l = Ok c /\ In c l /\ key c = Ok kc
    /\ (forall x k, In x l -> key x = Ok k -> kc <= k).
Proof.
  intros Hne Hall. destruct l as [|x l]; [congruence|].
  destruct (Hall x (or_introl eq_refl)) as [k Hk].
  destruct (min_from_least key l x k Hk) as (c & kc & Hm & Hin & Hc & Hle & Hleast).
  { intros y Hy. apply Hall. right. exact Hy. }
  exists c, kc. simpl. rewrite Hk. cbn [bind]. repeat split; auto.
  - destruct Hin as [-> | Hin]; [left; reflexivity | right; exact Hin].
  - intros y ky [<- | Hy] Hky; [rewrite Hk in Hky; injection Hky as <-; lia|].
    eapply Hleast; eauto.
Qed.

(** C7: for candidates that all read as dates, [find_closest_date] returns
    a candidate whose distance in time to [date] is least: as a point in
    time when [as_datetime] is true, and otherwise as a string, the
    candidate formatted with [fmt] or the candidate itself when it is a
    string already.  The documented example gives
    ['2019-01-02 00:00:00.000000']. *)
Theorem find_closest_date_spec :
  (forall (to_timestamp : string -> option Z)
          (strftime : Z -> string -> string)
          (date : date_like) (lookup_dates : list date_like)
          (as_datetime : bool) (fmt : string) (t0 : Z),
   lookup_dates <> [] ->
   to_datetime to_timestamp date = Ok t0 ->
   (forall x, In x lookup_dates ->
      exists t, to_datetime to_timestamp x = Ok t) ->
   exists c tc,
     In c lookup_dates
     /\ to_datetime to_timestamp c = Ok tc
     /\ (forall x tx, In x lookup_dates ->
           to_datetime to_timestamp x = Ok tx ->
           Z.abs (tc - t0) <= Z.abs (tx - t0))
     /\ find_closest_date to_timestamp strftime date lookup_dates
          as_datetime fmt
        = Ok (if as_datetime then DateTime tc
              else match c with
                   | DateTime t => DateStr (strftime t fmt)
                   | DateStr s => DateStr s
                   end))
  /\ find_closest_date Pandas.to_timestamp Pandas.strftime
       (DateStr "2019-01-01") (Pandas.date_range "2019-01-02" "2019-12-31")
       false default_fmt
     = Ok (DateStr "2019-01-02 00:00:00.000000").
Proof.
  split; [|vm_compute; reflexivity].
  intros to_timestamp strftime date lookup_dates as_datetime fmt t0
    Hne Hdate Hall.
  destruct (py_min_least (distance to_timestamp date) lookup_dates Hne)
    as (c & kc & Hm & Hin & Hc & Hleast).
  { intros x Hx. destruct (Hall x Hx) as [t Ht].
    exists (Z.abs (t - t0)). unfold distance. rewrite Ht, Hdate. reflexivity. }
  destruct (Hall c Hin) as [tc Htc].
  exists c, tc. split; [exact Hin|]. split; [exact Htc|]. split.
  - intros x tx Hx Htx.
    unfold distance in Hc. rewrite Htc, Hdate in Hc. cbn [bind] in Hc.
    injection Hc as <-.
    apply (Hleast x); [exact Hx|].
    unfold distance. rewrite Htx, Hdate. reflexivity.
  - unfold find_closest_date. rewrite Hm. cbn [bind].
    destruct as_datetime, c as [s|t]; try reflexivity.
    + rewrite Htc. reflexivity.
    + simpl in Htc. injection Htc as <-. reflexivity.
Qed.

Lemma find_closest_date_spec_witness :
  exists c tc,
    In c [DateStr "2019-03-01"; DateTime 1546387200000000000]
    /\ to_datetime Pandas.to_timestamp c = Ok tc
    /\ (forall x tx, In x [DateStr "2019-03-01"; DateTime 1546387200000000000] ->
          to_datetime Pandas.to_timestamp x = Ok tx ->
          Z.abs (tc - 1546300800000000000) <= Z.abs (tx - 1546300800000000000))
    /\ find_closest_date Pandas.to_timestamp Pandas.strftime
         (DateStr "2019-01-01")
         [DateStr "2019-03-01"; DateTime 1546387200000000000] true default_fmt
       = Ok (if true then DateTime tc
             else match c with
                  | DateTime t => DateStr (Pandas.strftime t default_fmt)
                  | DateStr s => DateStr s
                  end).
Proof.
  apply (proj1 find_closest_date_spec Pandas.to_timestamp Pandas.strftime
           (DateStr "2019-01-01")
           [DateStr "2019-03-01"; DateTime 1546387200000000000]
           true default_fmt 1546300800000000000).
  - discriminate.
  - vm_compute. reflexivity.
  - intros x [<- | [<- | []]]; eexists; vm_compute; reflexivity.
Defined.
